(** * PassWeaver: the password variation toolkit of [password_tool.py]

    A shallow embedding of the candidate generation and analysis engine
    (leetspeak variations, pattern combination, entropy estimate, policy
    check, local SHA-256 matching and its command-line gate), with the
    properties its specification states about it.

    Text is ASCII: a Python [str] is a [string] whose characters are code
    points below 128, the domain of the tool's keywords ([^[A-Za-z0-9]+$]),
    of its tables and of its regular expressions.  The case mappings and
    the whitespace class below are Python's on that range.  Python sets
    are [gset]s, the policy dictionary is a [gmap], the hash table is an
    insertion-ordered association list, floats are IEEE binary64, and the
    commands run in a small state-and-exception monad over the files and
    a trace of what was printed, probed, opened and logged. *)

From Stdlib Require Import ZArith Ascii Floats Uint63.
From stdpp Require Import gmap strings list sorting pretty.

#[local] Open Scope string_scope.
#[local] Open Scope list_scope.

(** ** Python [str] and [list] primitives *)

Module Py.

(** A character class [[lo-hi]] of a regular expression. *)
Definition in_range (lo hi c : ascii) : bool :=
  (lo <=? c)%char && (c <=? hi)%char.

Definition is_lower (c : ascii) : bool := in_range "a" "z" c.
Definition is_upper (c : ascii) : bool := in_range "A" "Z" c.
Definition is_digit (c : ascii) : bool := in_range "0" "9" c.

Definition char_lower (c : ascii) : ascii :=
  if is_upper c then ascii_of_N (N_of_ascii c + 32) else c.

Definition char_upper (c : ascii) : ascii :=
  if is_lower c then ascii_of_N (N_of_ascii c - 32) else c.

Fixpoint smap (f : ascii → ascii) (s : string) : string :=
  match s with
  | EmptyString => EmptyString
  | String c r => String (f c) (smap f r)
  end.

(** [s.lower()], [s.upper()], [s.capitalize()]. *)
Definition lower : string → string := smap char_lower.
Definition upper : string → string := smap char_upper.
Definition capitalize (s : string) : string :=
  match s with
  | EmptyString => EmptyString
  | String c r => String (char_upper c) (lower r)
  end.

(** [list(s)]: the one-character strings of [s]. *)
Fixpoint chars (s : string) : list string :=
  match s with
  | EmptyString => []
  | String c r => String c EmptyString :: chars r
  end.

(** [''.join(l)]. *)
Definition join (l : list string) : string := foldr String.append "" l.

(** [l[:n]] for a Python integer [n]: a negative bound counts from the
    end of the list. *)
Definition slice_to {A} (l : list A) (n : Z) : list A :=
  if (0 <=? n)%Z then take (Z.to_nat n) l
  else take (length l - Z.to_nat (- n)) l.

(** [sorted(s)] of a set of strings: code-point lexicographic order. *)
Definition sorted (s : gset string) : list string :=
  merge_sort (≤)%string (elements s).

(** [sub in s] for strings. *)
Fixpoint contains (sub s : string) : bool :=
  String.prefix sub s ||
  match s with
  | EmptyString => false
  | String _ r => contains sub r
  end.

(** [itertools.combinations(l, k)], in the order of the positions. *)
Fixpoint combinations {A} (l : list A) (k : nat) : list (list A) :=
  match l, k with
  | _, 0 => [[]]
  | [], S _ => []
  | x :: t, S k' => map (cons x) (combinations t k') ++ combinations t (S k')
  end.

(** Whitespace, as [str.strip()] sees it: tab to carriage return, the
    four separators 28 to 31, and the space. *)
Definition is_space (c : ascii) : bool :=
  in_range "009" "013" c || in_range "028" "031" c || Ascii.eqb c " ".

Fixpoint lstrip (s : string) : string :=
  match s with
  | EmptyString => EmptyString
  | String c r => if is_space c then lstrip r else s
  end.

Fixpoint rstrip (s : string) : string :=
  match s with
  | EmptyString => EmptyString
  | String c r =>
      match rstrip r with
      | EmptyString => if is_space c then EmptyString else String c EmptyString
      | r' => String c r'
      end
  end.

(** [s.strip()]. *)
Definition strip (s : string) : string := rstrip (lstrip s).

(** [s.split(sep, 1)] for a one-character separator. *)
Fixpoint split1 (sep : ascii) (s : string) : list string :=
  match s with
  | EmptyString => [EmptyString]
  | String c r =>
      if Ascii.eqb c sep then [EmptyString; r]
      else match split1 sep r with
           | h :: t => String c h :: t
           | [] => [String c EmptyString]
           end
  end.

(** [s.encode('utf-8')] on ASCII text: one byte per character. *)
Definition encode (s : string) : list Z :=
  (λ c, Z.of_N (N_of_ascii c)) <$> String.list_ascii_of_string s.

Definition LF : ascii := "010".
Definition CR : ascii := "013".

(** The lines a text file yields when iterated, in universal-newlines
    mode: a line ends at LF, CR or CR LF, each read back as LF. *)
Fixpoint readlines (s : string) : list string :=
  match s with
  | EmptyString => []
  | String c r =>
      if Ascii.eqb c LF then String LF EmptyString :: readlines r
      else if Ascii.eqb c CR then
        match r with
        | String c' r' =>
            if Ascii.eqb c' LF then String LF EmptyString :: readlines r'
            else String LF EmptyString :: readlines r
        | EmptyString => [String LF EmptyString]
        end
      else match readlines r with
           | l :: ls => String c l :: ls
           | [] => [String c EmptyString]
           end
  end.

End Py.

(** ** Mutation pipeline *)

Definition leet_substitutions : gmap string (list string) :=
  list_to_map
    [ ("a", ["@"; "4"]); ("b", ["8"]); ("c", ["("]); ("e", ["3"]);
      ("g", ["9"]); ("i", ["1"; "!"]); ("o", ["0"]); ("s", ["$"; "5"]);
      ("t", ["7"]) ].

Definition COMMON_PATTERNS : list string :=
  ["123"; "2023"; "!"; "@"; "#"; "admin"; "secure"].

(** [ch in leet_substitutions]. *)
Definition substitutable (ch : string) : Prop :=
  is_Some (leet_substitutions !! ch).

(** [[i for i, ch in enumerate(w) if ch in leet_substitutions]]. *)
Definition leet_indices (w : string) : list nat :=
  (filter (λ p, substitutable p.2) (imap (λ i ch, (i, ch)) (Py.chars w))).*1.

(** [leet_substitutions[w[i]]]; the indices the loops run over are those of
    [leet_indices], where the key is present. *)
Definition subs_at (w : string) (i : nat) : list string :=
  leet_substitutions !!! (Py.chars w !!! i).

(** The four base casings, as the set literal of the source builds them. *)
Definition base_casings (word : string) : gset string :=
  {[ word; Py.lower word; Py.upper word; Py.capitalize word ]}.

(** The loop of level 1: one position substituted. *)
Definition add_singles (w : string) (indices : list nat)
    (variations : gset string) : gset string :=
  foldl (λ vs i,
    foldl (λ vs sub,
      let lst := Py.chars w in
      let lst := <[i := sub]> lst in
      {[ Py.join lst ]} ∪ vs) vs (subs_at w i))
    variations indices.

(** The 2- and 3-tuples that [for a, b in ...] and [for (a, b, c) in ...]
    unpack. *)
Definition as_pair {A} (c : list A) : option (A * A) :=
  match c with [a; b] => Some (a, b) | _ => None end.

Definition as_triple {A} (c : list A) : option (A * A * A) :=
  match c with [a; b; c] => Some (a, b, c) | _ => None end.

(** The loop of level 2: every pair of positions, every pair of tokens. *)
Definition add_pairs (w : string) (indices : list nat)
    (variations : gset string) : gset string :=
  foldl (λ vs '(a, b),
    foldl (λ vs sa,
      foldl (λ vs sb,
        let lst := Py.chars w in
        let lst := <[a := sa]> lst in
        let lst := <[b := sb]> lst in
        {[ Py.join lst ]} ∪ vs) vs (subs_at w b))
      vs (subs_at w a))
    variations (omap as_pair (Py.combinations indices 2)).

(** The loop of level 3: the first 50 triples, first token only. *)
Definition add_triples (w : string) (indices : list nat)
    (variations : gset string) : gset string :=
  let triples := take 50 (omap as_triple (Py.combinations indices 3)) in
  foldl (λ vs '(a, b, c),
    foldl (λ vs sa,
      foldl (λ vs sb,
        foldl (λ vs sc,
          let lst := Py.chars w in
          let lst := <[c := sc]> (<[b := sb]> (<[a := sa]> lst)) in
          {[ Py.join lst ]} ∪ vs) vs (take 1 (subs_at w c)))
        vs (take 1 (subs_at w b)))
      vs (take 1 (subs_at w a)))
    variations triples.

(** The set [variations] when the function reaches [sorted]. *)
Definition leet_variations (word : string) (level : Z) : gset string :=
  let base := base_casings word in
  let w := Py.lower word in
  let indices := leet_indices w in
  let variations := base in
  let variations :=
    if (1 <=? level)%Z then add_singles w indices variations else variations in
  let variations :=
    if (2 <=? level)%Z then add_pairs w indices variations else variations in
  let variations :=
    if (3 <=? level)%Z then add_triples w indices variations else variations in
  variations.

Definition generate_leetspeak_variations
    (word : string) (level : Z) (max_results : Z) : list string :=
  let results := Py.sorted (leet_variations word level) in
  Py.slice_to results max_results.

(** [add_common_patterns]: [result] starts as [set(words)] and receives the
    three forms for each word and pattern. *)
Definition add_common_patterns (words : list string) (patterns : list string)
    : list string :=
  let result : gset string := list_to_set words in
  let result :=
    foldl (λ result w,
      foldl (λ result p,
        let result := {[ w +:+ p ]} ∪ result in
        let result := {[ p +:+ w ]} ∪ result in
        let result := {[ w +:+ "_" +:+ p ]} ∪ result in
        result) result patterns)
      result words in
  Py.sorted result.

(** ** Entropy and policy *)

(** The regular expressions of the source: a search for one character of a
    class, and a search for one of several literal alternatives. *)
Module Re.

(** [re.search('[...]', s)] is truthy when some character is in the class. *)
Fixpoint search_class (cls : ascii → bool) (s : string) : bool :=
  match s with
  | EmptyString => false
  | String c r => cls c || search_class cls r
  end.

(** [re.search('(a1|a2|...)', s)]: at each position, left to right, the
    alternatives are tried in order. *)
Fixpoint search_alt (alts : list string) (s : string) : bool :=
  existsb (λ a, String.prefix a s) alts ||
  match s with
  | EmptyString => false
  | String _ r => search_alt alts r
  end.

(** [[^A-Za-z0-9]]. *)
Definition not_alnum (c : ascii) : bool :=
  negb (Py.is_upper c || Py.is_lower c || Py.is_digit c).

End Re.

Definition COMMON_SUBSTRINGS : list string :=
  ["123"; "password"; "qwerty"; "admin"; "letmein"].

(** The alphabet size [charset] that [estimate_entropy_bits] accumulates. *)
Definition charset_size (password : string) : Z :=
  let charset := 0%Z in
  let charset :=
    if Re.search_class Py.is_lower password then (charset + 26)%Z else charset in
  let charset :=
    if Re.search_class Py.is_upper password then (charset + 26)%Z else charset in
  let charset :=
    if Re.search_class Py.is_digit password then (charset + 10)%Z else charset in
  let charset :=
    if Re.search_class Re.not_alnum password then (charset + 32)%Z else charset in
  charset.

(** Python floats are IEEE binary64 numbers, as Rocq's primitive floats. *)
Module Float.

(** The conversion of a length to a float in [len(password) * x]. *)
Definition of_len (n : nat) : float :=
  PrimFloat.of_uint63 (Uint63.of_Z (Z.of_nat n)).

(** [max(x, 0.0)]: Python returns the second argument only when it is
    greater than the first. *)
Definition max0 (x : float) : float :=
  if PrimFloat.ltb x 0%float then 0%float else x.

End Float.

Section Entropy.

(** [math.log2] on an integer argument, as the C library computes it. *)
Variable log2 : Z → float.

Definition estimate_entropy_bits (password : string) : float :=
  let charset := charset_size password in
  if (charset =? 0)%Z then 0%float
  else
    let bits := (Float.of_len (String.length password) * log2 charset)%float in
    let bits :=
      if Re.search_alt COMMON_SUBSTRINGS (Py.lower password)
      then (bits - 10)%float else bits in
    Float.max0 bits.

End Entropy.

(** Exceptions and results. *)
Inductive exn : Type :=
| KeyError (key : string)
| TypeError
| FileNotFoundError (path : string).

Inductive result (A : Type) : Type :=
| Ok (a : A)
| Raise (e : exn).
Arguments Ok {A} a.
Arguments Raise {A} e.

Definition rbind {A B} (r : result A) (k : A → result B) : result B :=
  match r with
  | Ok a => k a
  | Raise e => Raise e
  end.

(** The values a caller can put in a policy dictionary. *)
#[warnings="-register-all"]
Inductive value : Type :=
| VNone
| VBool (b : bool)
| VInt (n : Z)
| VStr (s : string)
| VList (l : list value).

Module Dict.

(** [d[k]]. *)
Definition getitem (d : gmap string value) (k : string) : result value :=
  match d !! k with
  | Some v => Ok v
  | None => Raise (KeyError k)
  end.

(** [d.get(k, dflt)]; [d.get(k)] has [dflt = None]. *)
Definition get (d : gmap string value) (k : string) (dflt : value) : value :=
  default dflt (d !! k).

End Dict.

(** Truth value of an object in a condition. *)
Definition truthy (v : value) : bool :=
  match v with
  | VNone => false
  | VBool b => b
  | VInt n => negb (n =? 0)%Z
  | VStr s => negb (String.eqb s "")
  | VList l => negb (bool_decide (l = []))
  end.

(** [n < v] for an integer [n]: only numbers compare with an integer. *)
Definition int_lt (n : Z) (v : value) : result bool :=
  match v with
  | VInt m => Ok (n <? m)%Z
  | VBool b => Ok (n <? (if b then 1 else 0))%Z
  | _ => Raise TypeError
  end.

(** The items a [for] loop draws from an object. *)
Definition iterate (v : value) : result (list value) :=
  match v with
  | VList l => Ok l
  | VStr s => Ok (VStr <$> Py.chars s)
  | _ => Raise TypeError
  end.

Definition default_policy : gmap string value :=
  list_to_map
    [ ("min_length", VInt 8); ("require_upper", VBool true);
      ("require_digit", VBool true);
      ("ban_substrings", VList [VStr "password"; VStr "1234"]) ].

(** The loop over the banned substrings: [b in lower] needs a string. *)
Fixpoint check_banned (lower : string) (bans : list value)
    (failures : list string) : result (list string) :=
  match bans with
  | [] => Ok failures
  | VStr b :: rest =>
      let failures :=
        if Py.contains b lower then failures ++ ["contains_" +:+ b]
        else failures in
      check_banned lower rest failures
  | _ :: _ => Raise TypeError
  end.

Definition policy_check (password : string) (policy : option (gmap string value))
    : result (bool * list string) :=
  let policy :=
    match policy with
    | None => default_policy
    | Some d => d
    end in
  let failures : list string := [] in
  rbind (Dict.getitem policy "min_length") (λ min_length,
  rbind (int_lt (Z.of_nat (String.length password)) min_length) (λ short,
  let failures := if short then failures ++ ["too_short"] else failures in
  let failures :=
    if truthy (Dict.get policy "require_upper" VNone)
       && negb (Re.search_class Py.is_upper password)
    then failures ++ ["missing_upper"] else failures in
  let failures :=
    if truthy (Dict.get policy "require_digit" VNone)
       && negb (Re.search_class Py.is_digit password)
    then failures ++ ["missing_digit"] else failures in
  let lower := Py.lower password in
  rbind (iterate (Dict.get policy "ban_substrings" (VList []))) (λ bans,
  rbind (check_banned lower bans failures) (λ failures,
  Ok (bool_decide (length failures = 0), failures))))).

(** ** SHA-256 ([hashlib.sha256], FIPS 180-4) on 32-bit words held in [Z] *)

Module Sha256.
#[local] Open Scope Z_scope.

Definition mask32 : Z := 0xffffffff.
Definition w32 (x : Z) : Z := Z.land x mask32.
Definition add32 (x y : Z) : Z := w32 (x + y).
Definition not32 (x : Z) : Z := Z.lxor x mask32.
Definition rotr (n x : Z) : Z :=
  Z.lor (Z.shiftr x n) (w32 (Z.shiftl x (32 - n))).

Definition Ch (x y z : Z) : Z := Z.lxor (Z.land x y) (Z.land (not32 x) z).
Definition Maj (x y z : Z) : Z :=
  Z.lxor (Z.lxor (Z.land x y) (Z.land x z)) (Z.land y z).
Definition bsig0 (x : Z) : Z := Z.lxor (Z.lxor (rotr 2 x) (rotr 13 x)) (rotr 22 x).
Definition bsig1 (x : Z) : Z := Z.lxor (Z.lxor (rotr 6 x) (rotr 11 x)) (rotr 25 x).
Definition ssig0 (x : Z) : Z := Z.lxor (Z.lxor (rotr 7 x) (rotr 18 x)) (Z.shiftr x 3).
Definition ssig1 (x : Z) : Z := Z.lxor (Z.lxor (rotr 17 x) (rotr 19 x)) (Z.shiftr x 10).

(** The first 64 primes. *)
Definition primes : list Z :=
  [ 2; 3; 5; 7; 11; 13; 17; 19; 23; 29; 31; 37; 41; 43; 47; 53; 59; 61; 67;
    71; 73; 79; 83; 89; 97; 101; 103; 107; 109; 113; 127; 131; 137; 139; 149;
    151; 157; 163; 167; 173; 179; 181; 191; 193; 197; 199; 211; 223; 227;
    229; 233; 239; 241; 251; 257; 263; 269; 271; 277; 281; 283; 293; 307;
    311 ].

(** The integer cube root below [2 ^ bits], built from the top bit down. *)
Fixpoint cbrt_bits (bits : nat) (n r : Z) : Z :=
  match bits with
  | O => r
  | S b =>
      let r' := r + 2 ^ Z.of_nat b in
      cbrt_bits b n (if r' * r' * r' <=? n then r' else r)
  end.

(** The first 32 bits of the fractional part of a cube or square root. *)
Definition frac_cbrt (p : Z) : Z := w32 (cbrt_bits 36 (p * 2 ^ 96) 0).
Definition frac_sqrt (p : Z) : Z := w32 (Z.sqrt (p * 2 ^ 64)).

(** The round constants: cube roots of the first 64 primes. *)
Definition K : list Z := Eval vm_compute in frac_cbrt <$> primes.

(** The eight working words. *)
Definition state : Type := Z * Z * Z * Z * Z * Z * Z * Z.

(** The initial hash value: square roots of the first 8 primes. *)
Definition H0 : state :=
  Eval vm_compute in
    (frac_sqrt 2, frac_sqrt 3, frac_sqrt 5, frac_sqrt 7,
     frac_sqrt 11, frac_sqrt 13, frac_sqrt 17, frac_sqrt 19).

(** Big-endian bytes of the 64-bit length field. *)
Definition be64 (n : Z) : list Z :=
  (λ i, Z.land (Z.shiftr n (8 * i)) 0xff) <$> [7; 6; 5; 4; 3; 2; 1; 0].

(** The message, a [0x80] byte, zero bytes up to 56 modulo 64, and the
    length in bits. *)
Definition pad (msg : list Z) : list Z :=
  let l := Z.of_nat (length msg) in
  msg ++ [0x80] ++ replicate (Z.to_nat ((55 - l) mod 64)) 0 ++ be64 (8 * l).

Fixpoint chunks (n : nat) (size : nat) (bytes : list Z) : list (list Z) :=
  match n with
  | O => []
  | S n' => take size bytes :: chunks n' size (drop size bytes)
  end.

Definition be32 (bytes : list Z) : Z :=
  foldl (λ acc b, Z.lor (Z.shiftl acc 8) b) 0 bytes.

(** The sixteen words of a 64-byte block. *)
Definition words (block : list Z) : list Z := be32 <$> chunks 16 4 block.

(** The message schedule, extended by [n] words. *)
Fixpoint extend (n : nat) (W : list Z) : list Z :=
  match n with
  | O => W
  | S n' =>
      let t := length W in
      let w :=
        add32 (add32 (add32 (ssig1 (W !!! (t - 2)%nat)) (W !!! (t - 7)%nat))
                     (ssig0 (W !!! (t - 15)%nat)))
              (W !!! (t - 16)%nat) in
      extend n' (W ++ [w])
  end.

Definition round (s : state) (kw : Z * Z) : state :=
  let '(a, b, c, d, e, f, g, h) := s in
  let '(k, w) := kw in
  let T1 := add32 (add32 (add32 (add32 h (bsig1 e)) (Ch e f g)) k) w in
  let T2 := add32 (bsig0 a) (Maj a b c) in
  (add32 T1 T2, a, b, c, add32 d T1, e, f, g).

Definition compress (H : state) (block : list Z) : state :=
  let W := extend 48 (words block) in
  let '(a, b, c, d, e, f, g, h) := foldl round H (zip K W) in
  let '(a0, b0, c0, d0, e0, f0, g0, h0) := H in
  (add32 a0 a, add32 b0 b, add32 c0 c, add32 d0 d,
   add32 e0 e, add32 f0 f, add32 g0 g, add32 h0 h).

Definition digest (msg : list Z) : state :=
  let padded := pad msg in
  foldl compress H0 (chunks (length padded / 64) 64 padded).

Definition hex_digit (n : Z) : ascii :=
  match n with
  | 0 => "0" | 1 => "1" | 2 => "2" | 3 => "3" | 4 => "4" | 5 => "5"
  | 6 => "6" | 7 => "7" | 8 => "8" | 9 => "9" | 10 => "a" | 11 => "b"
  | 12 => "c" | 13 => "d" | 14 => "e" | _ => "f"
  end%char.

Definition nibble (x i : Z) : ascii :=
  hex_digit (Z.land (Z.shiftr x (4 * i)) 0xf).

Definition hex8 (x : Z) : list ascii :=
  [nibble x 7; nibble x 6; nibble x 5; nibble x 4;
   nibble x 3; nibble x 2; nibble x 1; nibble x 0].

Definition hexdigest (s : state) : string :=
  let '(a, b, c, d, e, f, g, h) := s in
  String.string_of_list_ascii
    (hex8 a ++ hex8 b ++ hex8 c ++ hex8 d ++
     hex8 e ++ hex8 f ++ hex8 g ++ hex8 h).

End Sha256.

Definition sha256_hex (s : string) : string :=
  Sha256.hexdigest (Sha256.digest (Py.encode s)).

(** ** Files, console and log: the effects of the commands *)

Inductive event : Type :=
| EvPrint (text : string)     (* a line written by [print] *)
| EvExists (path : string)    (* [os.path.exists(path)] *)
| EvOpen (path : string)      (* [open(path, 'r')], found or not *)
| EvAudit (msg : string).     (* a record sent to the log *)

Record world : Type := World {
  files : gmap string string;   (* path to text content *)
  trace : list event            (* what has happened, oldest first *)
}.

Definition IO (A : Type) : Type := world → result A * world.

#[global] Instance IO_ret : MRet IO := λ A a w, (Ok a, w).
#[global] Instance IO_bind : MBind IO := λ A B k m w,
  match m w with
  | (Ok a, w') => k a w'
  | (Raise e, w') => (Raise e, w')
  end.

Definition emit (e : event) : IO unit :=
  λ w, (Ok tt, World (files w) (trace w ++ [e])).

(** The fallback [colored] of the source, used when [termcolor] cannot be
    imported. *)
Definition colored_fallback (s : string) (_color : string) : string := s.

Definition print (text : string) : IO unit := emit (EvPrint text).

Definition audit_log (msg : string) : IO unit := emit (EvAudit msg).

Definition path_exists (path : string) : IO bool :=
  λ w, (Ok (bool_decide (is_Some (files w !! path))),
        World (files w) (trace w ++ [EvExists path])).

(** [open(path, 'r')] followed by reading the whole text. *)
Definition open_read (path : string) : IO string :=
  λ w, let w' := World (files w) (trace w ++ [EvOpen path]) in
       match files w !! path with
       | Some text => (Ok text, w')
       | None => (Raise (FileNotFoundError path), w')
       end.

(** ** Lab simulation *)

(** A Python [dict] from [str] to [str]: items in insertion order, an
    assignment to a present key replaces its value in place. *)
Module ODict.

Fixpoint set (d : list (string * string)) (k v : string)
    : list (string * string) :=
  match d with
  | [] => [(k, v)]
  | (k', v') :: rest =>
      if String.eqb k' k then (k', v) :: rest else (k', v') :: set rest k v
  end.

End ODict.

(** The body of the loop over the lines of the hash file. *)
Definition load_line (out : list (string * string)) (line : string)
    : list (string * string) :=
  let line := Py.strip line in
  if String.eqb line "" || negb (Py.contains ":" line) then out
  else
    match Py.split1 ":" line with
    | [user; hh] => ODict.set out (Py.strip user) (Py.lower (Py.strip hh))
    | _ => out   (* not reached: the line has a colon *)
    end.

Definition load_local_sha256_hashes (path : string)
    : IO (list (string * string)) :=
  f ← open_read path;
  mret (foldl load_line [] (Py.readlines f)).

(** [for i, line in enumerate(f): if i >= max_checks: break; ...]. *)
Fixpoint read_candidates (max_checks : Z) (i : Z) (lines : list string)
    (candidates : list string) : list string :=
  match lines with
  | [] => candidates
  | line :: rest =>
      if (max_checks <=? i)%Z then candidates
      else read_candidates max_checks (i + 1) rest
             (candidates ++ [Py.strip line])
  end.

(** The comparison loops over the candidates and the table. *)
Definition find_hits (targets : list (string * string))
    (candidates : list string) : list (string * string * string) :=
  foldl (λ hits cand,
    let h := sha256_hex cand in
    foldl (λ hits '(user, th),
      if String.eqb h th then hits ++ [(user, cand, h)] else hits)
      hits targets)
    [] candidates.

Definition lab_simulate_match (hashes_path candidates_path : string)
    (max_checks : Z) : IO (list (string * string * string)) :=
  targets ← load_local_sha256_hashes hashes_path;
  f ← open_read candidates_path;
  let candidates := read_candidates max_checks 0 (Py.readlines f) [] in
  mret (find_hits targets candidates).

(** ** The [lab-sim] command *)

Record lab_args : Type := LabArgs {
  hashes : string;
  candidates : string;
  lab : bool;
  confirm : bool
}.

Definition REFUSAL : string :=
  "Lab simulation requires --lab and --confirm flags to run. This prevents accidental use.".

Fixpoint print_hits (hits : list (string * string * string)) : IO unit :=
  match hits with
  | [] => mret tt
  | (user, cand, h) :: rest =>
      print (user +:+ ":" +:+ cand +:+ ":" +:+ h);; print_hits rest
  end.

Section Command.

(** [colored] is [termcolor.colored] when the import succeeds and
    [colored_fallback] otherwise. *)
Variable colored : string → string → string.

Definition cmd_lab_sim (args : lab_args) : IO unit :=
  if negb (lab args) || negb (confirm args) then
    print (colored REFUSAL "red")
  else
    let hashes := hashes args in
    let candidates := candidates args in
    he ← path_exists hashes;
    missing ← (if negb he then mret true
               else ce ← path_exists candidates; mret (negb ce));
    if (missing : bool) then
      print (colored "Hashes or candidates file missing" "red")
    else
      audit_log ("Lab sim started: hashes=" +:+ hashes +:+
                 " candidates=" +:+ candidates);;
      hits ← lab_simulate_match hashes candidates 100000;
      (if bool_decide (hits = []) then
         print (colored "No hits found in local simulation." "yellow")
       else
         print (colored "HITS:" "red");; print_hits hits);;
      audit_log ("Lab sim finished, hits=" +:+ pretty (length hits)).

End Command.

(** ** The rest of the pipeline and of the commands *)

(** The local list [common_patterns] of [generate_common_passwords]. *)
Definition common_patterns : list string :=
  ["123"; "password"; "admin"; "user"; "secure"; "qwerty"; "letmein"].

Definition generate_common_passwords (keyword : string) : list string :=
  let variations :=
    [keyword; Py.lower keyword; Py.upper keyword; Py.capitalize keyword] in
  let out : gset string := ∅ in
  let out :=
    foldl (λ out v,
      foldl (λ out p,
        let out := {[ v +:+ p ]} ∪ out in
        let out := {[ p +:+ v ]} ∪ out in
        out) out common_patterns)
      out variations in
  Py.sorted out.

Section Filter.

(** [re.search(pattern, s)] is truthy, for a valid pattern. *)
Variable re_search : string → string → bool.

(** [regex_allow and not re.search(regex_allow, w)]: [None] and the empty
    pattern are falsy, and the search is then not made. *)
Definition rejected_by (regex_allow : option string) (w : string) : bool :=
  match regex_allow with
  | None => false
  | Some r => negb (String.eqb r "") && negb (re_search r w)
  end.

Definition filter_by_charset (words : list string) (min_len max_len : Z)
    (regex_allow : option string) : list string :=
  foldl (λ out w,
    let n := Z.of_nat (String.length w) in
    if (n <? min_len)%Z || (max_len <? n)%Z then out
    else if rejected_by regex_allow w then out
    else out ++ [w])
    [] words.

End Filter.

(** [write_list]: the file at [path] is created or replaced and receives
    each word followed by a newline.  A write shows in [files]. *)
Definition write_list (words : list string) (path : string) : IO unit :=
  λ w,
    let text :=
      foldl (λ text word, text +:+ (word +:+ String Py.LF "")) "" words in
    (Ok tt, World (<[path := text]> (files w)) (trace w)).

(** [for p in ...: print(p)]. *)
Fixpoint print_all (lines : list string) : IO unit :=
  match lines with
  | [] => mret tt
  | p :: rest => print p;; print_all rest
  end.

(** [str(b)] for a boolean. *)
Definition str_bool (b : bool) : string := if b then "True" else "False".

Record gen_args : Type := GenArgs {
  keyword : string;
  leet : Z;
  max_len : Z;
  preview : Z;
  outfile : string
}.

Section Commands.

Variable colored : string → string → string.
Variable re_search : string → string → bool.

(** The list [final] that [cmd_gen] builds before it prints and writes. *)
Definition gen_final (keyword : string) (leet_level max_len : Z) : list string :=
  let base := generate_common_passwords keyword in
  let leet := generate_leetspeak_variations keyword leet_level 2000 in
  let combined := base ++ leet in
  let patterned := add_common_patterns combined COMMON_PATTERNS in
  let filtered := filter_by_charset re_search patterned 1 max_len None in
  let final := foldl (λ final w, final ++ [w]) [] filtered in
  Py.sorted (list_to_set final).

Definition cmd_gen (args : gen_args) : IO unit :=
  let keyword := keyword args in
  let leet_level := leet args in
  let max_len := max_len args in
  let preview := preview args in
  let outfile := outfile args in
  audit_log ("gen called: keyword=" +:+ keyword +:+ " leet=" +:+ pretty leet_level
             +:+ " max_len=" +:+ pretty max_len +:+ " preview=" +:+ pretty preview
             +:+ " out=" +:+ outfile);;
  let final := gen_final keyword leet_level max_len in
  (if negb (preview =? 0)%Z then
     print (colored ("Top " +:+ pretty preview +:+ " candidates:") "cyan");;
     print_all (Py.slice_to final preview)
   else mret tt);;
  (if negb (String.eqb outfile "") then
     write_list final outfile;;
     print (colored ("Wrote " +:+ pretty (length final) +:+ " candidates to "
                     +:+ outfile) "yellow")
   else mret tt);;
  audit_log ("Generated " +:+ pretty (length final) +:+ " candidates").

(** [math.log2] and the format [{bits:.1f}] of a float. *)
Variable log2 : Z → float.
Variable format_1f : float → string.

(** The body of the loop of [cmd_analyze] over the lines of the file. *)
Definition analyze_line (line : string) : IO unit :=
  let pw := Py.strip line in
  let bits := estimate_entropy_bits log2 pw in
  match policy_check pw None with
  | Ok (ok, failures) =>
      print (pw +:+ "," +:+ format_1f bits +:+ "," +:+ str_bool ok +:+ ","
             +:+ String.concat ";" failures)
  | Raise e => λ w, (Raise e, w)
  end.

Fixpoint analyze_lines (lines : list string) : IO unit :=
  match lines with
  | [] => mret tt
  | line :: rest => analyze_line line;; analyze_lines rest
  end.

(** [cmd_analyze], on the [path] field of its arguments. *)
Definition cmd_analyze (path : string) : IO unit :=
  found ← path_exists path;
  if negb found then
    print (colored "Candidates file not found" "red")
  else
    print (colored "password,entropy_bits,policy_ok,failures" "cyan");;
    f ← open_read path;
    analyze_lines (Py.readlines f).

End Commands.

(** ** Vocabulary of the specification *)

(** Strict lexicographic order on strings, by code point. *)
Definition str_lt (s t : string) : Prop := String.ltb s t = true.

(** [sub] occurs in [s]. *)
Definition substring (sub s : string) : Prop :=
  ∃ pre post, s = pre +:+ sub +:+ post.

(** Some character of [s] is in the class [P]. *)
Definition has_char (P : ascii → Prop) (s : string) : Prop :=
  ∃ c, c ∈ String.list_ascii_of_string s ∧ P c.

(** Character classes by code point. *)
Definition code_between (lo hi : N) (c : ascii) : Prop :=
  (lo ≤ N_of_ascii c ≤ hi)%N.
Definition lowercase_letter : ascii → Prop := code_between 97 122.
Definition uppercase_letter : ascii → Prop := code_between 65 90.
Definition decimal_digit : ascii → Prop := code_between 48 57.
Definition symbol (c : ascii) : Prop :=
  ¬ lowercase_letter c ∧ ¬ uppercase_letter c ∧ ¬ decimal_digit c.

#[global] Instance code_between_dec lo hi c : Decision (code_between lo hi c).
Proof. unfold code_between. apply _. Defined.
#[global] Instance lowercase_letter_dec c : Decision (lowercase_letter c).
Proof. unfold lowercase_letter. apply _. Defined.
#[global] Instance uppercase_letter_dec c : Decision (uppercase_letter c).
Proof. unfold uppercase_letter. apply _. Defined.
#[global] Instance decimal_digit_dec c : Decision (decimal_digit c).
Proof. unfold decimal_digit. apply _. Defined.
#[global] Instance symbol_dec c : Decision (symbol c).
Proof. unfold symbol. apply _. Defined.

#[global] Instance has_char_dec (P : ascii → Prop) `{!∀ c, Decision (P c)} s :
  Decision (has_char P s).
Proof.
  refine (cast_if (decide (Exists P (String.list_ascii_of_string s))));
    unfold has_char; rewrite Exists_exists in *; done.
Defined.

(** The alphabet size of the specification: each class present in the
    password contributes its weight. *)
Definition class_weight (present : Prop) `{!Decision present} (weight : Z) : Z :=
  if decide present then weight else 0%Z.

Definition alphabet_size (password : string) : Z :=
  (class_weight (has_char lowercase_letter password) 26
   + class_weight (has_char uppercase_letter password) 26
   + class_weight (has_char decimal_digit password) 10
   + class_weight (has_char symbol password) 32)%Z.

(** The lowercased password contains one of the common substrings. *)
Definition penalised (password : string) : Prop :=
  ∃ a, a ∈ COMMON_SUBSTRINGS ∧ substring a (Py.lower password).

(** Hexadecimal digits, and the shape of a SHA-256 hex digest. *)
Definition lower_hex_char (c : ascii) : Prop :=
  decimal_digit c ∨ code_between 97 102 c.
Definition hex_char (c : ascii) : Prop :=
  lower_hex_char c ∨ code_between 65 70 c.

#[global] Instance lower_hex_char_dec c : Decision (lower_hex_char c).
Proof. unfold lower_hex_char. apply _. Defined.
#[global] Instance hex_char_dec c : Decision (hex_char c).
Proof. unfold hex_char. apply _. Defined.

Definition all_chars (P : ascii → Prop) (s : string) : Prop :=
  Forall P (String.list_ascii_of_string s).

Definition hex64 (s : string) : Prop :=
  String.length s = 64%nat ∧ all_chars hex_char s.
Definition lowercase_hex64 (s : string) : Prop :=
  String.length s = 64%nat ∧ all_chars lower_hex_char s.

(** One tuple for each pair of a candidate and a table entry whose digests
    agree, candidates first, table entries in their order. *)
Definition matching_pairs (targets : list (string * string))
    (candidates : list string) : list (string * string * string) :=
  candidates ≫= λ cand,
    targets ≫= λ entry,
      if decide (sha256_hex cand = entry.2)
      then [(entry.1, cand, entry.2)] else [].

(** The failure codes of the default policy, in the order of the checks. *)
Definition default_failure_order : list string :=
  ["too_short"; "missing_upper"; "missing_digit";
   "contains_password"; "contains_1234"].

(** The failure list under the default policy, check by check. *)
Definition default_failures (short no_upper no_digit pw d1234 : bool)
    : list string :=
  let failures := [] in
  let failures := if short then failures ++ ["too_short"] else failures in
  let failures := if no_upper then failures ++ ["missing_upper"] else failures in
  let failures := if no_digit then failures ++ ["missing_digit"] else failures in
  let failures := if pw then failures ++ ["contains_password"] else failures in
  let failures := if d1234 then failures ++ ["contains_1234"] else failures in
  failures.

(** Where a stored digest comes from: the text after the first colon of a
    line, stripped and lowercased. *)
Definition digest_of_line (line hh : string) : Prop :=
  ∃ user rest, Py.split1 ":" (Py.strip line) = [user; rest]
               ∧ hh = Py.lower (Py.strip rest).

(** ** Vocabulary of the further properties *)

(** The strings that the loops of levels 1, 2 and 3 add for the lowercased
    word [w]. *)
Definition single_variant (w s : string) : Prop :=
  ∃ i sub, i ∈ leet_indices w ∧ sub ∈ subs_at w i
    ∧ s = Py.join (<[i := sub]> (Py.chars w)).

Definition pair_variant (w s : string) : Prop :=
  ∃ a b sa sb,
    (a, b) ∈ omap as_pair (Py.combinations (leet_indices w) 2)
    ∧ sa ∈ subs_at w a ∧ sb ∈ subs_at w b
    ∧ s = Py.join (<[b := sb]> (<[a := sa]> (Py.chars w))).

Definition triple_variant (w s : string) : Prop :=
  ∃ a b c sa sb sc,
    (a, b, c) ∈ take 50 (omap as_triple (Py.combinations (leet_indices w) 3))
    ∧ sa ∈ take 1 (subs_at w a) ∧ sb ∈ take 1 (subs_at w b)
    ∧ sc ∈ take 1 (subs_at w c)
    ∧ s = Py.join (<[c := sc]> (<[b := sb]> (<[a := sa]> (Py.chars w)))).

(** Position [i] of [w] holds a character with replacement tokens, and
    [sub] is one of them. *)
Definition token_at (w : string) (i : nat) (sub : string) : Prop :=
  ∃ ch toks, Py.chars w !! i = Some ch ∧ leet_substitutions !! ch = Some toks
             ∧ sub ∈ toks.

(** The four casings that seed the common passwords, in the order of the
    source. *)
Definition casings (keyword : string) : list string :=
  [keyword; Py.lower keyword; Py.upper keyword; Py.capitalize keyword].

(** What [filter_by_charset] keeps: a length within the bounds and, when a
    non-empty pattern is given, a match of it. *)
Definition kept (re_search : string → string → bool) (min_len max_len : Z)
    (regex_allow : option string) (w : string) : Prop :=
  (min_len ≤ Z.of_nat (String.length w) ≤ max_len)%Z
  ∧ rejected_by re_search regex_allow w = false.

#[global] Instance kept_dec re_search min_len max_len regex_allow w :
  Decision (kept re_search min_len max_len regex_allow w).
Proof. unfold kept. apply _. Defined.

(** The failure list of a policy whose fields have the expected types:
    a minimum length, two flags and a list of banned strings. *)
Definition policy_failures (password : string) (min_length : Z)
    (require_upper require_digit : bool) (bans : list string) : list string :=
  (if bool_decide (Z.of_nat (String.length password) < min_length)%Z
   then ["too_short"] else [])
  ++ (if bool_decide (require_upper = true
                      ∧ ¬ has_char uppercase_letter password)
      then ["missing_upper"] else [])
  ++ (if bool_decide (require_digit = true
                      ∧ ¬ has_char decimal_digit password)
      then ["missing_digit"] else [])
  ++ ((λ b, "contains_" +:+ b)
        <$> filter (λ b, Py.contains b (Py.lower password) = true) bans).

(** The table entry that a line of the hash file stands for: identifier
    and digest around the first colon, stripped, the digest lowercased. *)
Definition entry_of_line (line user digest : string) : Prop :=
  ∃ u rest, Py.split1 ":" (Py.strip line) = [u; rest]
            ∧ user = Py.strip u ∧ digest = Py.lower (Py.strip rest).

(** What [cmd_lab_sim] prints for the hits: the summary line, and one line
    for each hit when there are any. *)
Definition hit_line (hit : string * string * string) : string :=
  hit.1.1 +:+ ":" +:+ hit.1.2 +:+ ":" +:+ hit.2.

Definition report_events (colored : string → string → string)
    (hits : list (string * string * string)) : list event :=
  match hits with
  | [] => [EvPrint (colored "No hits found in local simulation." "yellow")]
  | _ => EvPrint (colored "HITS:" "red") :: (EvPrint ∘ hit_line <$> hits)
  end.

(** A word that fits on one line: no line feed and no carriage return. *)
Definition one_line (word : string) : Prop :=
  Forall (λ c, c ≠ Py.LF ∧ c ≠ Py.CR) (String.list_ascii_of_string word).

(** What [cmd_gen] prints for the preview: nothing when [preview] is zero,
    else the heading and the slice [final[:preview]]. *)
Definition preview_events (colored : string → string → string)
    (final : list string) (preview : Z) : list event :=
  if (preview =? 0)%Z then []
  else EvPrint (colored ("Top " +:+ pretty preview +:+ " candidates:") "cyan")
       :: (EvPrint <$> Py.slice_to final preview).

(** [row] is the report of [cmd_analyze] for [line]: the stripped line,
    its entropy to one decimal, the verdict of the default policy and the
    failure codes joined by semicolons. *)
Definition is_row (log2 : Z → float) (format_1f : float → string)
    (line row : string) : Prop :=
  ∃ ok failures,
    policy_check (Py.strip line) None = Ok (ok, failures)
    ∧ (ok = true ↔ failures = [])
    ∧ row = Py.strip line +:+ ","
            +:+ format_1f (estimate_entropy_bits log2 (Py.strip line)) +:+ ","
            +:+ str_bool ok +:+ "," +:+ String.concat ";" failures.

(** * Properties *)

(** A closed decidable proposition, settled by evaluation. *)
Ltac vm_decide := apply (bool_decide_unpack _); vm_compute; exact I.

(** ** Sorting and slicing *)

Section SortedFacts.
Implicit Types (X Y : gset string) (s t : string) (l : list string).

Lemma str_le_ne_lt s t : (s ≤ t)%string → s ≠ t → str_lt s t.
Proof.
  unfold String.le, str_lt, String.leb, String.ltb. intros Hle Hne.
  destruct (String.compare s t) eqn:E; try done.
  by apply String.compare_eq_iff in E.
Qed.

Lemma elem_of_sorted X s : s ∈ Py.sorted X ↔ s ∈ X.
Proof.
  unfold Py.sorted. by rewrite merge_sort_Permutation, elem_of_elements.
Qed.

Lemma NoDup_sorted X : NoDup (Py.sorted X).
Proof.
  unfold Py.sorted. rewrite merge_sort_Permutation. apply NoDup_elements.
Qed.

Lemma length_sorted X : length (Py.sorted X) = size X.
Proof. unfold Py.sorted. by rewrite merge_sort_Permutation. Qed.

Lemma sorted_le X : StronglySorted (≤)%string (Py.sorted X).
Proof. apply StronglySorted_merge_sort; apply _. Qed.

(** A list sorted by [≤] without duplicates is sorted by [<]. *)
Lemma StronglySorted_strict l :
  StronglySorted (≤)%string l → NoDup l → StronglySorted str_lt l.
Proof.
  induction 1 as [|x l Hs IH Hall]; intros Hnd; constructor.
  - apply IH. by apply NoDup_cons in Hnd as [].
  - apply NoDup_cons in Hnd as [Hx _].
    rewrite Forall_forall in Hall |- *. intros y Hy.
    apply str_le_ne_lt; [by apply Hall|]. intros ->. by apply Hx.
Qed.

Lemma sorted_lt X : StronglySorted str_lt (Py.sorted X).
Proof. apply StronglySorted_strict; [apply sorted_le | apply NoDup_sorted]. Qed.

Lemma slice_to_nonneg {A} (l : list A) (n : Z) :
  (0 ≤ n)%Z → Py.slice_to l n = take (Z.to_nat n) l.
Proof. intros Hn. unfold Py.slice_to. by rewrite (proj2 (Z.leb_le 0 n) Hn). Qed.

(** What the first [n] entries of a strictly sorted list leave out is
    larger than all of them. *)
Lemma take_sorted_displaced l n s :
  StronglySorted str_lt l → s ∈ l → s ∉ take n l →
  length (take n l) = n ∧ ∀ t, t ∈ take n l → str_lt t s.
Proof.
  intros Hs Hin Hout.
  rewrite <- (take_drop n l) in Hin, Hs.
  apply elem_of_app in Hin as [Hin|Hin]; [done|].
  split.
  - rewrite length_take. apply Nat.min_l.
    destruct (decide (n ≤ length l)%nat) as [|Hlt]; [done|].
    rewrite drop_ge in Hin by lia. by apply elem_of_nil in Hin.
  - intros t Ht. by eapply (StronglySorted_app_1_elem_of str_lt).
Qed.

End SortedFacts.

(** ** The variation generator *)

Section Generator.
Implicit Types (word w s t : string) (vs : gset string) (level N : Z).

Lemma foldl_extends {A} (f : gset string → A → gset string) (l : list A) vs :
  (∀ vs a, vs ⊆ f vs a) → vs ⊆ foldl f vs l.
Proof.
  intros Hf. revert vs. induction l as [|a l IH]; intros vs; simpl; [done|].
  etrans; [apply (Hf vs a) | apply IH].
Qed.

Lemma add_singles_extends w (indices : list nat) vs :
  vs ⊆ add_singles w indices vs.
Proof.
  unfold add_singles. apply foldl_extends. intros vs1 i.
  apply foldl_extends. intros vs2 sub. apply union_subseteq_r.
Qed.

Lemma add_pairs_extends w (indices : list nat) vs :
  vs ⊆ add_pairs w indices vs.
Proof.
  unfold add_pairs. apply foldl_extends. intros vs1 [a b].
  apply foldl_extends. intros vs2 sa.
  apply foldl_extends. intros vs3 sb. apply union_subseteq_r.
Qed.

Lemma add_triples_extends w (indices : list nat) vs :
  vs ⊆ add_triples w indices vs.
Proof.
  unfold add_triples. apply foldl_extends. intros vs1 [[a b] c].
  apply foldl_extends. intros vs2 sa.
  apply foldl_extends. intros vs3 sb.
  apply foldl_extends. intros vs4 sc. apply union_subseteq_r.
Qed.

(** The accumulated set only grows with the level. *)
Lemma leet_variations_mono word level level' :
  (level ≤ level')%Z →
  leet_variations word level ⊆ leet_variations word level'.
Proof.
  intros Hle. unfold leet_variations.
  destruct (Z.leb_spec 1 level), (Z.leb_spec 2 level), (Z.leb_spec 3 level),
    (Z.leb_spec 1 level'), (Z.leb_spec 2 level'), (Z.leb_spec 3 level');
    try lia;
    repeat first
      [ reflexivity
      | etrans; [|apply add_triples_extends]
      | etrans; [|apply add_pairs_extends]
      | etrans; [|apply add_singles_extends] ].
Qed.

Lemma leet_variations_0 word : leet_variations word 0 = base_casings word.
Proof. reflexivity. Qed.

Lemma generate_take word level N :
  (0 ≤ N)%Z →
  generate_leetspeak_variations word level N =
  take (Z.to_nat N) (Py.sorted (leet_variations word level)).
Proof. intros HN. unfold generate_leetspeak_variations. by apply slice_to_nonneg. Qed.

Lemma elem_of_generate word level N s :
  (0 ≤ N)%Z →
  s ∈ generate_leetspeak_variations word level N → s ∈ leet_variations word level.
Proof.
  intros HN. rewrite generate_take by done. intros Hs.
  apply elem_of_sorted. apply elem_of_take in Hs as (i & Hi & _).
  by eapply list_elem_of_lookup_2.
Qed.

Lemma elem_of_base_casings word s :
  s ∈ base_casings word ↔
  s = word ∨ s = Py.lower word ∨ s = Py.upper word ∨ s = Py.capitalize word.
Proof.
  unfold base_casings. rewrite !elem_of_union, !elem_of_singleton. tauto.
Qed.

Lemma size_union_le (X Y : gset string) : (size (X ∪ Y) ≤ size X + size Y)%nat.
Proof.
  rewrite size_union_alt.
  assert (size (Y ∖ X) ≤ size Y)%nat; [|lia].
  apply subseteq_size. by intros x [? _]%elem_of_difference.
Qed.

Lemma size_base_casings word : (size (base_casings word) ≤ 4)%nat.
Proof.
  unfold base_casings.
  pose proof (size_union_le {[word; Py.lower word; Py.upper word]}
                            {[Py.capitalize word]}) as H1.
  pose proof (size_union_le {[word; Py.lower word]} {[Py.upper word]}) as H2.
  pose proof (size_union_le {[word]} {[Py.lower word]}) as H3.
  rewrite !size_singleton in *. lia.
Qed.

(** Without a substitutable character no loop adds anything. *)
Lemma filter_imap_unsubstitutable (l : list string) (g : nat → nat) :
  (∀ ch, ch ∈ l → leet_substitutions !! ch = None) →
  filter (λ p : nat * string, substitutable p.2) (imap (λ i ch, (g i, ch)) l) = [].
Proof.
  revert g. induction l as [|ch l IH]; intros g Hl; [done|].
  rewrite imap_cons, filter_cons. destruct (decide _) as [Hs|_].
  - simpl in Hs. unfold substitutable in Hs.
    rewrite (Hl ch) in Hs by apply list_elem_of_here. by destruct Hs.
  - apply (IH (g ∘ S)). intros ch' Hch'. apply Hl. by apply list_elem_of_further.
Qed.

Lemma leet_indices_nil w :
  (∀ ch, ch ∈ Py.chars w → leet_substitutions !! ch = None) →
  leet_indices w = [].
Proof.
  intros Hw. unfold leet_indices.
  pose proof (filter_imap_unsubstitutable (Py.chars w) id Hw) as Hnil.
  unfold id in Hnil. by rewrite Hnil.
Qed.

(** The loops only look up keys that are present: [leet_substitutions[w[i]]]
    cannot raise [KeyError]. *)
Lemma elem_of_leet_indices w (i : nat) :
  i ∈ leet_indices w ↔ ∃ ch, Py.chars w !! i = Some ch ∧ substitutable ch.
Proof.
  unfold leet_indices. rewrite list_elem_of_fmap. split.
  - intros ([j ch] & -> & [Hs Hin]%list_elem_of_filter).
    apply elem_of_lookup_imap in Hin as (k & ch' & [= -> ->] & Hk). eauto.
  - intros (ch & Hi & Hs). exists (i, ch). split; [done|].
    apply list_elem_of_filter. split; [done|].
    apply elem_of_lookup_imap. eauto.
Qed.

Lemma leet_variations_unsubstitutable word level :
  (∀ ch, ch ∈ Py.chars (Py.lower word) → leet_substitutions !! ch = None) →
  leet_variations word level = base_casings word.
Proof.
  intros Hw. unfold leet_variations. rewrite (leet_indices_nil _ Hw).
  by repeat case_match.
Qed.

End Generator.

(** C8. For every word, level and [max_results = N ≥ 1], the generator
    returns at most [N] strings, and they are the first [N] entries of the
    accumulated variation set put in strictly increasing lexicographic
    order: the list [all] has exactly the elements of the set and is sorted
    by [<], which determines it, so the truncation is by sort order. *)
Theorem generate_sorted_truncation (word : string) (level N : Z) :
  (1 ≤ N)%Z →
  let all := Py.sorted (leet_variations word level) in
  (Z.of_nat (length (generate_leetspeak_variations word level N)) ≤ N)%Z
  ∧ generate_leetspeak_variations word level N = take (Z.to_nat N) all
  ∧ StronglySorted str_lt all
  ∧ (∀ s, s ∈ all ↔ s ∈ leet_variations word level).
Proof.
  intros HN all. repeat split.
  - rewrite generate_take by lia. rewrite length_take. lia.
  - apply generate_take. lia.
  - apply sorted_lt.
  - apply elem_of_sorted.
  - apply elem_of_sorted.
Qed.

Lemma generate_sorted_truncation_witness :
  (1 ≤ 3)%Z
  ∧ (Z.of_nat (length (generate_leetspeak_variations "Test" 2 3)) ≤ 3)%Z
  ∧ generate_leetspeak_variations "Test" 2 3 = ["73st"; "7e$t"; "7e5t"].
Proof.
  split; [lia|].
  destruct (generate_sorted_truncation "Test" 2 3) as (Hlen & Hgen & _); [lia|].
  split; [exact Hlen|]. rewrite Hgen. vm_compute. reflexivity.
Defined.

(** C1, as stated, fails: with [max_results = 1] the keyword "a" yields
    ["A"] at level 0 and ["4"] at level 1. *)
Lemma level_growth_counterexample :
  (1 ≤ 1)%Z
  ∧ generate_leetspeak_variations "a" 0 1 = ["A"]
  ∧ generate_leetspeak_variations "a" 1 1 = ["4"]
  ∧ ¬ (∀ s, s ∈ generate_leetspeak_variations "a" 0 1 →
            s ∈ generate_leetspeak_variations "a" 1 1).
Proof.
  split; [lia|]. split; [by vm_compute|]. split; [by vm_compute|].
  intros H. specialize (H "A").
  change (generate_leetspeak_variations "a" 0 1) with ["A"] in H.
  change (generate_leetspeak_variations "a" 1 1) with ["4"] in H.
  specialize (H (list_elem_of_here _ _)).
  by apply list_elem_of_singleton in H.
Qed.

(** C1, amended. At level 0 the result holds nothing beyond the four base
    casings.  Each of its strings is in the level-1 result at the same
    [max_results = N], unless the level-1 result is full ([N] strings) and
    all of them sort before it; in particular the inclusion holds whenever
    [N] is at least the number of level-1 variations.  Before truncation
    the accumulated set grows with the level. *)
Theorem level0_base_and_level1 (word : string) (N : Z) :
  (1 ≤ N)%Z →
  (∀ s, s ∈ generate_leetspeak_variations word 0 N →
        s = word ∨ s = Py.lower word ∨ s = Py.upper word
        ∨ s = Py.capitalize word)
  ∧ (∀ s, s ∈ generate_leetspeak_variations word 0 N →
        s ∈ generate_leetspeak_variations word 1 N
        ∨ (length (generate_leetspeak_variations word 1 N) = Z.to_nat N
           ∧ ∀ t, t ∈ generate_leetspeak_variations word 1 N → str_lt t s))
  ∧ ((Z.of_nat (size (leet_variations word 1)) ≤ N)%Z →
        ∀ s, s ∈ generate_leetspeak_variations word 0 N →
             s ∈ generate_leetspeak_variations word 1 N)
  ∧ (∀ level level', (level ≤ level')%Z →
        leet_variations word level ⊆ leet_variations word level').
Proof.
  intros HN.
  assert (H01 : ∀ s, s ∈ generate_leetspeak_variations word 0 N →
                     s ∈ Py.sorted (leet_variations word 1)).
  { intros s Hs. apply elem_of_sorted.
    apply (leet_variations_mono word 0 1); [lia|].
    eapply elem_of_generate; [|done]. lia. }
  split; [|split; [|split; [|apply leet_variations_mono]]].
  - intros s Hs. apply elem_of_base_casings. rewrite <- leet_variations_0.
    eapply elem_of_generate; [|done]. lia.
  - intros s Hs. rewrite (generate_take word 1) by lia.
    destruct (decide (s ∈ take (Z.to_nat N) (Py.sorted (leet_variations word 1))))
      as [Hin|Hout]; [by left|right].
    apply take_sorted_displaced; [apply sorted_lt | by apply H01 | done].
  - intros Hsize s Hs. rewrite (generate_take word 1) by lia.
    rewrite take_ge; [by apply H01|]. rewrite length_sorted. lia.
Qed.

Lemma level0_base_and_level1_witness :
  (1 ≤ 4)%Z
  ∧ (Z.of_nat (size (leet_variations "a" 1)) ≤ 4)%Z
  ∧ ∀ s, s ∈ generate_leetspeak_variations "a" 0 4 →
         s ∈ generate_leetspeak_variations "a" 1 4.
Proof.
  split; [lia|].
  assert (Hsize : (Z.of_nat (size (leet_variations "a" 1)) ≤ 4)%Z)
    by (vm_compute; discriminate).
  split; [exact Hsize|].
  destruct (level0_base_and_level1 "a" 4) as (_ & _ & Hincl & _); [lia|].
  exact (Hincl Hsize).
Defined.

(** C2, as stated, fails: "xY" has no substitutable character and four
    distinct casings, and [max_results = 1] keeps only the first. *)
Lemma unsubstitutable_counterexample :
  (∀ ch, ch ∈ Py.chars (Py.lower "xY") → leet_substitutions !! ch = None)
  ∧ (1 ≤ 1)%Z
  ∧ Py.lower "xY" ∈ base_casings "xY"
  ∧ generate_leetspeak_variations "xY" 0 1 = ["XY"]
  ∧ Py.lower "xY" ∉ generate_leetspeak_variations "xY" 0 1.
Proof.
  split; [|split; [lia|split; [|split]]].
  - apply Forall_forall. vm_compute. repeat constructor.
  - apply elem_of_base_casings. auto.
  - by vm_compute.
  - change (generate_leetspeak_variations "xY" 0 1) with ["XY"].
    intros H. by apply list_elem_of_singleton in H.
Qed.

(** C2, amended. A word none of whose lowercased characters has an entry in
    the substitution table yields, at every level, the sorted deduplicated
    base casings cut to the first [max_results = N] entries; the result is
    exactly the set of the four base casings whenever [N] is at least their
    number, in particular whenever [N ≥ 4]. *)
Theorem unsubstitutable_returns_base (word : string) (level N : Z) :
  (∀ ch, ch ∈ Py.chars (Py.lower word) → leet_substitutions !! ch = None) →
  (0 ≤ level ≤ 3)%Z → (1 ≤ N)%Z →
  generate_leetspeak_variations word level N =
    take (Z.to_nat N) (Py.sorted (base_casings word))
  ∧ NoDup (generate_leetspeak_variations word level N)
  ∧ ((Z.of_nat (size (base_casings word)) ≤ N)%Z →
     ∀ s, s ∈ generate_leetspeak_variations word level N ↔
          s = word ∨ s = Py.lower word ∨ s = Py.upper word
          ∨ s = Py.capitalize word)
  ∧ ((4 ≤ N)%Z →
     ∀ s, s ∈ generate_leetspeak_variations word level N ↔
          s = word ∨ s = Py.lower word ∨ s = Py.upper word
          ∨ s = Py.capitalize word).
Proof.
  intros Hw _ HN.
  assert (Hgen : generate_leetspeak_variations word level N =
                 take (Z.to_nat N) (Py.sorted (base_casings word))).
  { rewrite generate_take by lia. by rewrite leet_variations_unsubstitutable. }
  assert (Hall : (Z.of_nat (size (base_casings word)) ≤ N)%Z →
     ∀ s, s ∈ generate_leetspeak_variations word level N ↔
          s = word ∨ s = Py.lower word ∨ s = Py.upper word
          ∨ s = Py.capitalize word).
  { intros Hsize s. rewrite Hgen, take_ge by (rewrite length_sorted; lia).
    by rewrite elem_of_sorted, elem_of_base_casings. }
  split; [done|]. split; [|split; [done|]].
  - rewrite Hgen. eapply sublist_NoDup; [apply NoDup_sorted | apply sublist_take].
  - intros H4. apply Hall. pose proof (size_base_casings word). lia.
Qed.

Lemma unsubstitutable_returns_base_witness :
  (∀ ch, ch ∈ Py.chars (Py.lower "xY") → leet_substitutions !! ch = None)
  ∧ (0 ≤ 2 ≤ 3)%Z ∧ (1 ≤ 4)%Z
  ∧ generate_leetspeak_variations "xY" 2 4 = ["XY"; "Xy"; "xY"; "xy"].
Proof.
  assert (Hw : ∀ ch, ch ∈ Py.chars (Py.lower "xY") →
                     leet_substitutions !! ch = None).
  { apply Forall_forall. vm_compute. repeat constructor. }
  split; [exact Hw|]. split; [lia|]. split; [lia|].
  destruct (unsubstitutable_returns_base "xY" 2 4 Hw) as (Hgen & _); [lia|lia|].
  rewrite Hgen. vm_compute. reflexivity.
Defined.

(** ** Characters, classes and substrings *)

Section Text.
Implicit Types (s t sub : string) (c : ascii).

Lemma in_range_spec (lo hi c : ascii) :
  Py.in_range lo hi c = true ↔ code_between (N_of_ascii lo) (N_of_ascii hi) c.
Proof.
  unfold Py.in_range, code_between, Ascii.leb, Ascii.compare.
  rewrite andb_true_iff.
  destruct (N.compare_spec (N_of_ascii lo) (N_of_ascii c));
    destruct (N.compare_spec (N_of_ascii c) (N_of_ascii hi));
    split; intros []; try done; split; try done; lia.
Qed.

Lemma is_lower_spec c : Py.is_lower c = true ↔ lowercase_letter c.
Proof. apply in_range_spec. Qed.

Lemma is_upper_spec c : Py.is_upper c = true ↔ uppercase_letter c.
Proof. apply in_range_spec. Qed.

Lemma is_digit_spec c : Py.is_digit c = true ↔ decimal_digit c.
Proof. apply in_range_spec. Qed.

Lemma not_alnum_spec c : Re.not_alnum c = true ↔ symbol c.
Proof.
  unfold Re.not_alnum, symbol.
  rewrite negb_true_iff, !orb_false_iff.
  rewrite <- is_lower_spec, <- is_upper_spec, <- is_digit_spec.
  destruct (Py.is_upper c), (Py.is_lower c), (Py.is_digit c); intuition congruence.
Qed.

Lemma search_class_spec (cls : ascii → bool) (P : ascii → Prop) s :
  (∀ c, cls c = true ↔ P c) →
  Re.search_class cls s = true ↔ has_char P s.
Proof.
  intros HP. unfold has_char. induction s as [|c s IH]; simpl.
  - split; [done|]. intros (c & Hc & _). by apply elem_of_nil in Hc.
  - rewrite orb_true_iff, IH, HP. split.
    + intros [Hc|(c' & Hc' & HPc')].
      * exists c. split; [apply list_elem_of_here|done].
      * exists c'. split; [by apply list_elem_of_further|done].
    + intros (c' & Hc' & HPc'). apply elem_of_cons in Hc' as [->|Hc']; eauto.
Qed.

Lemma app_String c s t : String c s +:+ t = String c (s +:+ t).
Proof. reflexivity. Qed.

Lemma app_empty s : "" +:+ s = s.
Proof. reflexivity. Qed.

Lemma prefix_spec sub s :
  String.prefix sub s = true ↔ ∃ post, s = sub +:+ post.
Proof.
  revert s. induction sub as [|a sub IH]; intros [|b s]; simpl.
  - split; [intros _; by eexists|done].
  - split; [intros _; by eexists|done].
  - split; [done|by intros [? ?]].
  - destruct (ascii_dec a b) as [->|Hne].
    + rewrite IH. split; intros [post Hpost]; exists post; rewrite ?app_String in *; congruence.
    + split; [done|]. intros [post Hpost]. rewrite app_String in Hpost. congruence.
Qed.

Lemma contains_spec sub s : Py.contains sub s = true ↔ substring sub s.
Proof.
  unfold substring. induction s as [|c s IH]; cbn [Py.contains].
  - rewrite orb_false_r, prefix_spec. split.
    + intros [post ->]. by exists "", post.
    + intros ([|? pre] & post & Heq); [by exists post|done].
  - rewrite orb_true_iff, prefix_spec, IH. split.
    + intros [[post ->]|(pre & post & ->)].
      * by exists "", post.
      * by exists (String c pre), post.
    + intros ([|c' pre] & post & Heq).
      * left. by exists post.
      * right. exists pre, post. rewrite app_String in Heq. congruence.
Qed.

Lemma search_alt_spec (alts : list string) s :
  Re.search_alt alts s = true ↔ ∃ a, a ∈ alts ∧ substring a s.
Proof.
  assert (Hhere : ∀ t, existsb (λ a, String.prefix a t) alts = true ↔
                       ∃ a, a ∈ alts ∧ ∃ post, t = a +:+ post).
  { intros t. rewrite existsb_exists. setoid_rewrite prefix_spec.
    by setoid_rewrite <- list_elem_of_In. }
  induction s as [|c s IH]; cbn [Re.search_alt].
  - rewrite orb_false_r, Hhere. split.
    + intros (a & Ha & post & ->). exists a. split; [done|]. by exists "", post.
    + intros (a & Ha & [|? pre] & post & Heq); [|done].
      exists a. split; [done|]. by exists post.
  - rewrite orb_true_iff, Hhere, IH. split.
    + intros [(a & Ha & post & ->)|(a & Ha & pre & post & ->)].
      * exists a. split; [done|]. by exists "", post.
      * exists a. split; [done|]. by exists (String c pre), post.
    + intros (a & Ha & [|c' pre] & post & Heq).
      * left. exists a. split; [done|]. by exists post.
      * right. exists a. split; [done|]. exists pre, post. rewrite app_String in Heq. congruence.
Qed.

End Text.

(** ** The pattern combinator *)

(** A loop that only adds to a set: what it holds at the end is what it
    held at the start and what some iteration added. *)
Lemma elem_of_foldl_add {A} (g : gset string → A → gset string)
    (Q : A → Prop) (l : list A) (r : gset string) (s : string) :
  (∀ r a, s ∈ g r a ↔ s ∈ r ∨ Q a) →
  s ∈ foldl g r l ↔ s ∈ r ∨ ∃ a, a ∈ l ∧ Q a.
Proof.
  intros Hg. revert r. induction l as [|a l IH]; intros r; simpl.
  - split; [by left|]. intros [Hr|(a & Ha & _)]; [done|].
    by apply elem_of_nil in Ha.
  - rewrite IH, Hg. split.
    + intros [[Hr|Ha]|(a' & Ha' & HQ)]; [by left| |].
      * right. exists a. split; [apply list_elem_of_here|done].
      * right. exists a'. split; [by apply list_elem_of_further|done].
    + intros [Hr|(a' & Ha' & HQ)]; [by left; left|].
      apply elem_of_cons in Ha' as [->|Ha']; [by left; right|].
      right. by exists a'.
Qed.

Lemma elem_of_add_common_patterns (words patterns : list string) (s : string) :
  s ∈ add_common_patterns words patterns ↔
  s ∈ words ∨
  ∃ w, w ∈ words ∧ ∃ p, p ∈ patterns ∧
    (s = w +:+ p ∨ s = p +:+ w ∨ s = w +:+ "_" +:+ p).
Proof.
  unfold add_common_patterns. rewrite elem_of_sorted.
  rewrite (elem_of_foldl_add _
    (λ w, ∃ p, p ∈ patterns ∧
       (s = w +:+ p ∨ s = p +:+ w ∨ s = w +:+ "_" +:+ p))).
  - by rewrite elem_of_list_to_set.
  - intros r w.
    apply (elem_of_foldl_add _
      (λ p, s = w +:+ p ∨ s = p +:+ w ∨ s = w +:+ "_" +:+ p)).
    intros r' p. rewrite !elem_of_union, !elem_of_singleton. tauto.
Qed.

(** C7. [add_common_patterns] holds a string exactly when it is an input
    word or one of the three forms [w+p], [p+w], [w+"_"+p] of a word and a
    pattern; every input word and every form is there; for ["x"] and
    ["123"] the result is the four strings "x", "x123", "123x", "x_123". *)
Theorem add_common_patterns_exact (words patterns : list string) :
  (∀ s, s ∈ add_common_patterns words patterns ↔
        s ∈ words ∨
        ∃ w, w ∈ words ∧ ∃ p, p ∈ patterns ∧
          (s = w +:+ p ∨ s = p +:+ w ∨ s = w +:+ "_" +:+ p))
  ∧ (∀ w, w ∈ words → w ∈ add_common_patterns words patterns)
  ∧ (∀ w p, w ∈ words → p ∈ patterns →
        w +:+ p ∈ add_common_patterns words patterns
        ∧ p +:+ w ∈ add_common_patterns words patterns
        ∧ w +:+ "_" +:+ p ∈ add_common_patterns words patterns)
  ∧ NoDup (add_common_patterns words patterns)
  ∧ add_common_patterns ["x"] ["123"] = ["123x"; "x"; "x123"; "x_123"]
  ∧ (∀ s, s ∈ add_common_patterns ["x"] ["123"] ↔
          s ∈ ["x"; "x123"; "123x"; "x_123"]).
Proof.
  split; [apply elem_of_add_common_patterns|].
  split; [intros w Hw; apply elem_of_add_common_patterns; by left|].
  split.
  { intros w p Hw Hp.
    repeat split; apply elem_of_add_common_patterns; right;
      (exists w; split; [done|]; exists p; split; [done|]); tauto. }
  split; [apply NoDup_sorted|].
  assert (Hx : add_common_patterns ["x"] ["123"] = ["123x"; "x"; "x123"; "x_123"])
    by (by vm_compute).
  split; [exact Hx|].
  intros s. rewrite Hx, !elem_of_cons. tauto.
Qed.

Lemma add_common_patterns_exact_witness :
  "admin" ∈ ["admin"; "root"]
  ∧ "2023" ∈ COMMON_PATTERNS
  ∧ "admin_2023" ∈ add_common_patterns ["admin"; "root"] COMMON_PATTERNS.
Proof.
  assert (Hw : "admin" ∈ ["admin"; "root"]) by vm_decide.
  assert (Hp : "2023" ∈ COMMON_PATTERNS) by vm_decide.
  split; [exact Hw|]. split; [exact Hp|].
  destruct (add_common_patterns_exact ["admin"; "root"] COMMON_PATTERNS)
    as (_ & _ & Hforms & _).
  exact (proj2 (proj2 (Hforms "admin" "2023" Hw Hp))).
Defined.

(** ** The policy checker *)

Section Policy.
Implicit Types (password : string) (policy : gmap string value).

Lemma policy_check_default_eq password :
  policy_check password None =
  let failures :=
    default_failures
      (Z.of_nat (String.length password) <? 8)%Z
      (negb (Re.search_class Py.is_upper password))
      (negb (Re.search_class Py.is_digit password))
      (Py.contains "password" (Py.lower password))
      (Py.contains "1234" (Py.lower password)) in
  Ok (bool_decide (length failures = 0%nat), failures).
Proof.
  unfold policy_check, default_failures.
  change (Dict.getitem default_policy "min_length") with (Ok (VInt 8)).
  change (Dict.get default_policy "require_upper" VNone) with (VBool true).
  change (Dict.get default_policy "require_digit" VNone) with (VBool true).
  change (Dict.get default_policy "ban_substrings" (VList []))
    with (VList [VStr "password"; VStr "1234"]).
  cbn [rbind int_lt iterate truthy check_banned andb].
  by repeat case_match.
Qed.

Lemma default_failures_spec (short no_upper no_digit pw d1234 : bool) :
  let failures := default_failures short no_upper no_digit pw d1234 in
  failures `sublist_of` default_failure_order
  ∧ ("too_short" ∈ failures ↔ short = true)
  ∧ ("missing_upper" ∈ failures ↔ no_upper = true)
  ∧ ("missing_digit" ∈ failures ↔ no_digit = true)
  ∧ ("contains_password" ∈ failures ↔ pw = true)
  ∧ ("contains_1234" ∈ failures ↔ d1234 = true)
  ∧ (bool_decide (length failures = 0%nat) = true ↔ failures = []).
Proof.
  cbv zeta. split.
  - destruct short, no_upper, no_digit, pw, d1234; simpl;
      repeat first [apply sublist_nil | apply sublist_skip | apply sublist_cons].
  - destruct short, no_upper, no_digit, pw, d1234; vm_decide.
Qed.

Lemma check_banned_no_KeyError (lower : string) (bans : list value)
    (failures : list string) (k : string) :
  check_banned lower bans failures ≠ Raise (KeyError k).
Proof.
  revert failures. induction bans as [|[] bans IH]; intros failures; simpl;
    first [done | apply IH].
Qed.

End Policy.

Lemma search_class_false (cls : ascii → bool) (P : ascii → Prop) (s : string) :
  (∀ c, cls c = true ↔ P c) →
  negb (Re.search_class cls s) = true ↔ ¬ has_char P s.
Proof.
  intros HP. rewrite negb_true_iff, <- not_true_iff_false.
  by rewrite (search_class_spec cls P s HP).
Qed.

(** C5. Under the default policy the failure codes come in the fixed order
    too_short, missing_upper, missing_digit, contains_password,
    contains_1234; each code is present exactly when its own check fails,
    whatever the other checks say; [passed] is true exactly when the list
    is empty; "abcdefg1" fails with missing_upper alone. *)
Theorem policy_check_default_order (password : string) :
  (∃ passed failures,
      policy_check password None = Ok (passed, failures)
      ∧ (passed = true ↔ failures = [])
      ∧ failures `sublist_of` default_failure_order
      ∧ ("too_short" ∈ failures ↔ (String.length password < 8)%nat)
      ∧ ("missing_upper" ∈ failures ↔ ¬ has_char uppercase_letter password)
      ∧ ("missing_digit" ∈ failures ↔ ¬ has_char decimal_digit password)
      ∧ ("contains_password" ∈ failures ↔
           substring "password" (Py.lower password))
      ∧ ("contains_1234" ∈ failures ↔ substring "1234" (Py.lower password)))
  ∧ policy_check "abcdefg1" None = Ok (false, ["missing_upper"])
  ∧ "missing_upper" ∈ ["missing_upper"] ∧ "too_short" ∉ ["missing_upper"].
Proof.
  split; [|split; [by vm_compute|split; [vm_decide|vm_decide]]].
  rewrite policy_check_default_eq. cbv zeta.
  eexists _, _. split; [reflexivity|].
  destruct (default_failures_spec
    (Z.of_nat (String.length password) <? 8)%Z
    (negb (Re.search_class Py.is_upper password))
    (negb (Re.search_class Py.is_digit password))
    (Py.contains "password" (Py.lower password))
    (Py.contains "1234" (Py.lower password)))
    as (Hsub & Hshort & Hupper & Hdigit & Hpw & H1234 & Hpassed).
  split; [exact Hpassed|]. split; [exact Hsub|].
  split; [rewrite Hshort, Z.ltb_lt; lia|].
  split; [by rewrite Hupper, (search_class_false _ _ _ is_upper_spec)|].
  split; [by rewrite Hdigit, (search_class_false _ _ _ is_digit_spec)|].
  split; [by rewrite Hpw, contains_spec|].
  by rewrite H1234, contains_spec.
Qed.

Lemma policy_check_default_order_witness :
  substring "password" (Py.lower "MyPassword12345")
  ∧ ∃ passed failures,
      policy_check "MyPassword12345" None = Ok (passed, failures)
      ∧ "contains_password" ∈ failures.
Proof.
  assert (Hsub : substring "password" (Py.lower "MyPassword12345"))
    by (by apply contains_spec).
  split; [exact Hsub|].
  destruct (proj1 (policy_check_default_order "MyPassword12345"))
    as (passed & failures & Hrun & _ & _ & _ & _ & _ & Hpw & _).
  exists passed, failures. split; [exact Hrun|]. exact (proj2 Hpw Hsub).
Defined.

(** C10. A caller-supplied policy without 'min_length' raises [KeyError];
    a missing 'require_upper', 'require_digit' or 'ban_substrings' behaves
    as that check disabled; no other key can raise [KeyError]; a policy
    with 'min_length' alone is accepted. *)
Theorem policy_min_length_only_mandatory
    (password : string) (policy : gmap string value) :
  (policy !! "min_length" = None →
     policy_check password (Some policy) = Raise (KeyError "min_length"))
  ∧ (policy !! "require_upper" = None →
     policy_check password (Some policy) =
     policy_check password (Some (<["require_upper" := VBool false]> policy)))
  ∧ (policy !! "require_digit" = None →
     policy_check password (Some policy) =
     policy_check password (Some (<["require_digit" := VBool false]> policy)))
  ∧ (policy !! "ban_substrings" = None →
     policy_check password (Some policy) =
     policy_check password (Some (<["ban_substrings" := VList []]> policy)))
  ∧ (∀ k, policy_check password (Some policy) = Raise (KeyError k) →
          k = "min_length" ∧ policy !! "min_length" = None)
  ∧ (∀ n : Z,
       policy_check password (Some {[ "min_length" := VInt n ]}) =
       if (Z.of_nat (String.length password) <? n)%Z
       then Ok (false, ["too_short"]) else Ok (true, [])).
Proof.
  split; [|split; [|split; [|split; [|split]]]].
  - intros Hmin. unfold policy_check, Dict.getitem. by rewrite Hmin.
  - intros Hnone. unfold policy_check, Dict.getitem, Dict.get.
    rewrite lookup_insert_eq, !lookup_insert_ne, Hnone by done. done.
  - intros Hnone. unfold policy_check, Dict.getitem, Dict.get.
    rewrite lookup_insert_eq, !lookup_insert_ne, Hnone by done. done.
  - intros Hnone. unfold policy_check, Dict.getitem, Dict.get.
    rewrite lookup_insert_eq, !lookup_insert_ne, Hnone by done. done.
  - intros k. unfold policy_check, Dict.getitem.
    destruct (policy !! "min_length") as [v|] eqn:Hmin; cbn [rbind].
    + intros H. exfalso.
      destruct (int_lt _ v) as [short|e] eqn:Hlt; cbn [rbind] in H.
      * destruct (iterate _) as [bans|e] eqn:Hit; cbn [rbind] in H.
        -- destruct (check_banned _ bans _) as [fs|e] eqn:Hcb; cbn [rbind] in H;
             [done|]. injection H as ->. by eapply check_banned_no_KeyError.
        -- injection H as ->. unfold iterate in Hit. by repeat case_match.
      * injection H as ->. unfold int_lt in Hlt. by repeat case_match.
    + intros [= <-]. done.
  - intros n. unfold policy_check, Dict.getitem, Dict.get.
    rewrite lookup_singleton_eq, !lookup_singleton_ne by done.
    cbn [rbind int_lt default truthy andb iterate check_banned].
    by destruct (_ <? _)%Z.
Qed.

Lemma policy_min_length_only_mandatory_witness :
  ({[ "require_upper" := VBool true ]} : gmap string value) !! "min_length" = None
  ∧ policy_check "Secret99" (Some {[ "require_upper" := VBool true ]})
    = Raise (KeyError "min_length")
  ∧ ({[ "min_length" := VInt 4 ]} : gmap string value) !! "require_upper" = None
  ∧ policy_check "secret" (Some {[ "min_length" := VInt 4 ]}) = Ok (true, []).
Proof.
  assert (H1 : ({[ "require_upper" := VBool true ]} : gmap string value)
               !! "min_length" = None) by reflexivity.
  split; [exact H1|]. split.
  - exact (proj1 (policy_min_length_only_mandatory "Secret99" _) H1).
  - split; [reflexivity|].
    destruct (policy_min_length_only_mandatory "secret" ∅)
      as (_ & _ & _ & _ & _ & Hmin).
    exact (Hmin 4%Z).
Defined.

(** ** The entropy estimate *)

Section EntropyFacts.
Variable log2 : Z → float.
Implicit Types (password : string).

Lemma charset_size_alphabet_size password :
  charset_size password = alphabet_size password.
Proof.
  unfold charset_size, alphabet_size, class_weight.
  pose proof (search_class_spec _ _ password is_lower_spec) as Hl.
  pose proof (search_class_spec _ _ password is_upper_spec) as Hu.
  pose proof (search_class_spec _ _ password is_digit_spec) as Hd.
  pose proof (search_class_spec _ _ password not_alnum_spec) as Hs.
  destruct (Re.search_class Py.is_lower password),
           (Re.search_class Py.is_upper password),
           (Re.search_class Py.is_digit password),
           (Re.search_class Re.not_alnum password);
    repeat case_decide; try reflexivity;
    exfalso; intuition congruence.
Qed.

Lemma alphabet_size_nonneg password : (0 ≤ alphabet_size password)%Z.
Proof. unfold alphabet_size, class_weight. repeat case_decide; lia. Qed.

Lemma alphabet_size_zero password : alphabet_size password = 0%Z ↔ password = "".
Proof.
  split.
  - destruct password as [|c r]; [done|]. intros H0. exfalso.
    assert (Hc : ∀ P : ascii → Prop, P c → has_char P (String c r)).
    { intros P HP. exists c. split; [apply list_elem_of_here|done]. }
    unfold alphabet_size, class_weight in H0.
    destruct (decide (lowercase_letter c)) as [Hl|Hl];
      [apply Hc in Hl; repeat case_decide; try done; lia|].
    destruct (decide (uppercase_letter c)) as [Hu|Hu];
      [apply Hc in Hu; repeat case_decide; try done; lia|].
    destruct (decide (decimal_digit c)) as [Hd|Hd];
      [apply Hc in Hd; repeat case_decide; try done; lia|].
    assert (Hs : has_char symbol (String c r)) by (by apply Hc).
    repeat case_decide; try done; lia.
  - intros ->. unfold alphabet_size, class_weight.
    repeat case_decide; try reflexivity;
      match goal with
      | H : has_char _ "" |- _ =>
          destruct H as (c & Hc & _); by apply elem_of_nil in Hc
      end.
Qed.

Lemma penalised_spec password :
  Re.search_alt COMMON_SUBSTRINGS (Py.lower password) = true ↔ penalised password.
Proof. apply search_alt_spec. Qed.

Lemma estimate_entropy_bits_nonempty password :
  alphabet_size password ≠ 0%Z →
  estimate_entropy_bits log2 password =
  let bits :=
    (Float.of_len (String.length password) * log2 (alphabet_size password))%float in
  Float.max0
    (if Re.search_alt COMMON_SUBSTRINGS (Py.lower password)
     then (bits - 10)%float else bits).
Proof.
  intros Hne. unfold estimate_entropy_bits.
  rewrite charset_size_alphabet_size.
  by rewrite (proj2 (Z.eqb_neq _ _) Hne).
Qed.

End EntropyFacts.

(** C4. The estimate is [max(0, len * log2(S) - P)]: [S] adds 26, 26, 10
    and 32 for the lowercase, uppercase, digit and other characters
    present; [S] is 0 only for the empty password, whose estimate is 0.0;
    the 10-bit penalty is subtracted exactly when the lowercased password
    contains one of the common substrings; "aaaaaaaa" has [S = 26] and no
    penalty, so its estimate is [8 * log2(26)] clamped at 0, which is
    [8 * log2(26)] itself as soon as that float is not negative. *)
Theorem estimate_entropy_bits_formula (log2 : Z → float) (password : string) :
  let S := alphabet_size password in
  let len := Float.of_len (String.length password) in
  charset_size password = S
  ∧ (S = 0%Z ↔ password = "")
  ∧ (S = 0%Z → estimate_entropy_bits log2 password = 0%float)
  ∧ (S ≠ 0%Z → penalised password →
       estimate_entropy_bits log2 password
       = Float.max0 (len * log2 S - 10)%float)
  ∧ (S ≠ 0%Z → ¬ penalised password →
       estimate_entropy_bits log2 password = Float.max0 (len * log2 S)%float)
  ∧ estimate_entropy_bits log2 "" = 0%float
  ∧ alphabet_size "aaaaaaaa" = 26%Z
  ∧ ¬ penalised "aaaaaaaa"
  ∧ estimate_entropy_bits log2 "aaaaaaaa" = Float.max0 (8 * log2 26%Z)%float
  ∧ (PrimFloat.ltb (8 * log2 26%Z)%float 0%float = false →
       estimate_entropy_bits log2 "aaaaaaaa" = (8 * log2 26%Z)%float).
Proof.
  intros S len.
  assert (Ha : estimate_entropy_bits log2 "aaaaaaaa"
               = Float.max0 (8 * log2 26%Z)%float) by reflexivity.
  split; [apply charset_size_alphabet_size|].
  split; [apply alphabet_size_zero|].
  split.
  { intros HS. apply alphabet_size_zero in HS. by subst password. }
  split.
  { intros HS Hpen. rewrite estimate_entropy_bits_nonempty by done.
    cbv zeta. by rewrite (proj2 (penalised_spec password) Hpen). }
  split.
  { intros HS Hpen. rewrite estimate_entropy_bits_nonempty by done.
    cbv zeta. destruct (Re.search_alt _ _) eqn:Hsearch; [|done].
    by apply penalised_spec in Hsearch. }
  split; [reflexivity|]. split; [by vm_compute|].
  split.
  { intros Hpen%penalised_spec. by vm_compute in Hpen. }
  split; [exact Ha|].
  intros Hpos. rewrite Ha. unfold Float.max0. by rewrite Hpos.
Qed.

Lemma estimate_entropy_bits_formula_witness :
  let log2 := λ n : Z,
    if (n =? 26)%Z then 0x1.2cd4011c8f119p+2%float
    else if (n =? 36)%Z then 0x1.4ae00d1cfdeb4p+2%float
    else 0%float in
  PrimFloat.ltb (8 * log2 26%Z)%float 0%float = false
  ∧ estimate_entropy_bits log2 "aaaaaaaa" = (8 * log2 26%Z)%float
  ∧ alphabet_size "admin1" ≠ 0%Z
  ∧ penalised "admin1"
  ∧ estimate_entropy_bits log2 "admin1" = 0x1.505013ab7ce0ep+4%float.
Proof.
  intros log2.
  assert (Hpos : PrimFloat.ltb (8 * log2 26%Z)%float 0%float = false)
    by reflexivity.
  assert (HS : alphabet_size "admin1" ≠ 0%Z) by (by vm_compute).
  assert (Hpen : penalised "admin1") by (by apply penalised_spec).
  destruct (estimate_entropy_bits_formula log2 "aaaaaaaa")
    as (_ & _ & _ & _ & _ & _ & _ & _ & _ & Ha).
  destruct (estimate_entropy_bits_formula log2 "admin1")
    as (_ & _ & _ & Hp & _).
  split; [exact Hpos|]. split; [exact (Ha Hpos)|].
  split; [exact HS|]. split; [exact Hpen|].
  rewrite (Hp HS Hpen). vm_compute. reflexivity.
Defined.

(** ** Lowercasing and the digest table *)

Section HashTable.
Implicit Types (s line user hh : string) (c : ascii)
  (out : list (string * string)).

(** A property of all 256 characters, settled by enumeration. *)
Ltac by_cases_on_char c :=
  destruct c as [[] [] [] [] [] [] [] []]; vm_decide.

Lemma char_lower_not_upper c : ¬ uppercase_letter (Py.char_lower c).
Proof. by_cases_on_char c. Qed.

Lemma char_lower_hex c : hex_char c → lower_hex_char (Py.char_lower c).
Proof. by_cases_on_char c. Qed.

Lemma lower_no_upper s : ¬ has_char uppercase_letter (Py.lower s).
Proof.
  intros (c & Hc & Hup). induction s as [|a s IH]; simpl in Hc.
  - by apply elem_of_nil in Hc.
  - apply elem_of_cons in Hc as [->|Hc]; [by apply char_lower_not_upper in Hup|].
    by apply IH.
Qed.

Lemma length_lower s : String.length (Py.lower s) = String.length s.
Proof. induction s as [|a s IH]; simpl; [done|]. f_equal. exact IH. Qed.

Lemma lower_hex64 s : hex64 s → lowercase_hex64 (Py.lower s).
Proof.
  intros [Hlen Hall]. split; [by rewrite length_lower|].
  clear Hlen. unfold all_chars in *. induction s as [|a s IH]; simpl in *.
  - constructor.
  - apply Forall_cons in Hall as [Ha Hs]. constructor; [by apply char_lower_hex|].
    by apply IH.
Qed.

(** A computed digest has the shape of the specification: 64 lowercase
    hexadecimal digits. *)
Lemma hex_digit_lower (n : Z) : lower_hex_char (Sha256.hex_digit n).
Proof. unfold Sha256.hex_digit. repeat case_match; vm_decide. Qed.

Lemma sha256_hex_shape s : lowercase_hex64 (sha256_hex s).
Proof.
  unfold sha256_hex.
  destruct (Sha256.digest (Py.encode s)) as [[[[[[[a b] c] d] e] f] g] h].
  unfold lowercase_hex64, all_chars, Sha256.hexdigest.
  rewrite String.list_ascii_of_string_of_list_ascii.
  split; [reflexivity|].
  unfold Sha256.hex8, Sha256.nibble. cbn [app].
  repeat (constructor; [apply hex_digit_lower|]). constructor.
Qed.

Lemma elem_of_ODict_set out (k v user hh : string) :
  (user, hh) ∈ ODict.set out k v → (user, hh) ∈ out ∨ (user = k ∧ hh = v).
Proof.
  induction out as [|[k' v'] out IH]; simpl.
  - intros [= -> ->]%list_elem_of_singleton. by right.
  - destruct (String.eqb k' k) eqn:Hk.
    + apply String.eqb_eq in Hk as ->.
      intros [[= -> ->]|Hin]%elem_of_cons; [by right|].
      left. by apply list_elem_of_further.
    + intros [->|Hin]%elem_of_cons; [left; apply list_elem_of_here|].
      destruct (IH Hin) as [?|?]; [left; by apply list_elem_of_further|by right].
Qed.

Lemma elem_of_load_line out line user hh :
  (user, hh) ∈ load_line out line →
  (user, hh) ∈ out ∨ digest_of_line line hh.
Proof.
  unfold load_line. case_match; [by left|].
  destruct (Py.split1 ":" (Py.strip line)) as [|u [|r [|? ?]]] eqn:Hsplit;
    try by left.
  intros [Hin|[-> ->]]%elem_of_ODict_set; [by left|].
  right. by exists u, r.
Qed.

Lemma elem_of_load_lines (lines : list string) out user hh :
  (user, hh) ∈ foldl load_line out lines →
  (user, hh) ∈ out ∨ ∃ line, line ∈ lines ∧ digest_of_line line hh.
Proof.
  revert out. induction lines as [|line lines IH]; intros out; simpl; [by left|].
  intros [Hin|(l & Hl & Hd)]%IH.
  - apply elem_of_load_line in Hin as [?|?]; [by left|].
    right. exists line. split; [apply list_elem_of_here|done].
  - right. exists l. split; [by apply list_elem_of_further|done].
Qed.

End HashTable.

(** ** Running the file operations *)

Section Runs.
Implicit Types (w : world) (path text : string).

Lemma open_read_found path text w :
  files w !! path = Some text →
  open_read path w = (Ok text, World (files w) (trace w ++ [EvOpen path])).
Proof. intros Hf. unfold open_read. by rewrite Hf. Qed.

Lemma open_read_trace path w :
  trace (open_read path w).2 = trace w ++ [EvOpen path].
Proof. unfold open_read. by destruct (files w !! path). Qed.

Lemma load_local_sha256_hashes_run path text w :
  files w !! path = Some text →
  load_local_sha256_hashes path w =
  (Ok (foldl load_line [] (Py.readlines text)),
   World (files w) (trace w ++ [EvOpen path])).
Proof.
  intros Hf. unfold load_local_sha256_hashes, mbind, IO_bind.
  by rewrite (open_read_found path text w Hf).
Qed.

Lemma load_local_sha256_hashes_trace path w :
  trace (load_local_sha256_hashes path w).2 = trace w ++ [EvOpen path].
Proof.
  unfold load_local_sha256_hashes, mbind, IO_bind, open_read.
  by destruct (files w !! path).
Qed.

End Runs.

(** C3, as stated, fails: the loader stores whatever follows the colon. *)
Lemma digest_shape_counterexample :
  (load_local_sha256_hashes "hashes.txt"
     (World {[ "hashes.txt" := "bob:xyz" ]} [])).1 = Ok [("bob", "xyz")]
  ∧ ¬ lowercase_hex64 "xyz".
Proof.
  split; [by vm_compute|]. intros [Hlen _]. by vm_compute in Hlen.
Qed.

(** C3, amended. Every digest stored in the table is the text after the
    first colon of one of the file's lines, stripped and lowercased: it
    holds no uppercase letter, and it is a lowercase hexadecimal string of
    64 characters whenever that text is a 64-character hexadecimal
    string. *)
Theorem loaded_digests_lowercased (path text : string) (w : world) :
  files w !! path = Some text →
  ∃ table,
    (load_local_sha256_hashes path w).1 = Ok table
    ∧ ∀ user hh, (user, hh) ∈ table →
        ¬ has_char uppercase_letter hh
        ∧ ∃ line u rest,
            line ∈ Py.readlines text
            ∧ Py.split1 ":" (Py.strip line) = [u; rest]
            ∧ hh = Py.lower (Py.strip rest)
            ∧ (hex64 (Py.strip rest) → lowercase_hex64 hh).
Proof.
  intros Hf. eexists. rewrite (load_local_sha256_hashes_run path text w Hf).
  split; [reflexivity|]. intros user hh Hin.
  apply elem_of_load_lines in Hin as [Hin|(line & Hline & u & rest & Hsplit & ->)].
  { by apply elem_of_nil in Hin. }
  split; [apply lower_no_upper|].
  exists line, u, rest. split; [done|]. split; [done|]. split; [done|].
  apply lower_hex64.
Qed.

Lemma loaded_digests_lowercased_witness :
  let digest :=
    "F52FBD32B2B3B86FF88EF6C490628285F482AF15DDCB29541F94BCF526A3F6C7" in
  let w := World {[ "hashes.txt" := "alice: " +:+ digest ]} [] in
  files w !! "hashes.txt" = Some ("alice: " +:+ digest)
  ∧ hex64 digest
  ∧ ∃ table,
      (load_local_sha256_hashes "hashes.txt" w).1 = Ok table
      ∧ ∀ user hh, (user, hh) ∈ table → ¬ has_char uppercase_letter hh.
Proof.
  intros digest w.
  assert (Hf : files w !! "hashes.txt" = Some ("alice: " +:+ digest))
    by reflexivity.
  split; [exact Hf|]. split; [vm_decide|].
  destruct (loaded_digests_lowercased "hashes.txt" _ w Hf) as (table & Ht & Hall).
  exists table. split; [exact Ht|].
  intros user hh Hin. exact (proj1 (Hall user hh Hin)).
Defined.

(** ** The matcher *)

Section Matcher.
Implicit Types (targets : list (string * string)) (w : world)
  (lines cands : list string).

Lemma read_candidates_take (max_checks i : Z) lines (acc : list string) :
  read_candidates max_checks i lines acc =
  acc ++ (Py.strip <$> take (Z.to_nat (max_checks - i)) lines).
Proof.
  revert i acc. induction lines as [|line lines IH]; intros i acc; simpl.
  - by rewrite take_nil, app_nil_r.
  - destruct (max_checks <=? i)%Z eqn:Hi.
    + apply Z.leb_le in Hi. replace (Z.to_nat (max_checks - i)) with 0%nat by lia.
      by rewrite app_nil_r.
    + apply Z.leb_gt in Hi. rewrite IH.
      replace (Z.to_nat (max_checks - i))
        with (S (Z.to_nat (max_checks - (i + 1)))) by lia.
      by rewrite <- app_assoc.
Qed.

Lemma foldl_append {A B} (f : A → list B) (g : list B → A → list B)
    (l : list A) (acc : list B) :
  (∀ acc a, g acc a = acc ++ f a) → foldl g acc l = acc ++ (l ≫= f).
Proof.
  intros Hg. revert acc. induction l as [|a l IH]; intros acc; simpl.
  - by rewrite app_nil_r.
  - by rewrite IH, Hg, <- app_assoc.
Qed.

Lemma find_hits_matching_pairs targets cands :
  find_hits targets cands = matching_pairs targets cands.
Proof.
  unfold find_hits, matching_pairs.
  rewrite (foldl_append (λ cand, targets ≫= λ entry,
             if decide (sha256_hex cand = entry.2)
             then [(entry.1, cand, entry.2)] else [])); [done|].
  intros acc cand. apply foldl_append. intros acc' [user th]. simpl.
  destruct (String.eqb _ th) eqn:Heq.
  - apply String.eqb_eq in Heq. rewrite decide_True by done. by rewrite Heq.
  - apply String.eqb_neq in Heq. rewrite decide_False by done.
    by rewrite app_nil_r.
Qed.

Lemma elem_of_matching_pairs targets cands (user cand digest : string) :
  (user, cand, digest) ∈ matching_pairs targets cands ↔
  cand ∈ cands ∧ (user, digest) ∈ targets ∧ sha256_hex cand = digest.
Proof.
  unfold matching_pairs. rewrite list_elem_of_bind. split.
  - intros (c & Hin & Hc). apply list_elem_of_bind in Hin as ([u th] & Hin & Ht).
    simpl in Hin. case_decide; [|by apply elem_of_nil in Hin].
    apply list_elem_of_singleton in Hin as [= -> -> ->]. done.
  - intros (Hc & Ht & Hd). exists cand. split; [|done].
    apply list_elem_of_bind. exists (user, digest). split; [|done].
    simpl. rewrite decide_True by done. apply list_elem_of_here.
Qed.

(** A line with a colon splits in two: the unpacking of [split(':', 1)]
    in the loader cannot fail. *)
Lemma split1_contains (sep : ascii) (s : string) :
  Py.contains (String sep "") s = true →
  ∃ before after, Py.split1 sep s = [before; after].
Proof.
  induction s as [|c s IH]; cbn [Py.contains Py.split1].
  - by destruct sep as [[] [] [] [] [] [] [] []].
  - destruct (Ascii.eqb c sep) eqn:Hc; [eauto|].
    rewrite orb_true_iff. intros [Hp|Hs].
    + apply prefix_spec in Hp as [post Hp]. rewrite app_String in Hp.
      injection Hp as -> _. by rewrite Ascii.eqb_refl in Hc.
    + destruct (IH Hs) as (before & after & ->). eauto.
Qed.

Lemma load_line_skip (out : list (string * string)) (line : string) :
  Py.strip line = "" ∨ ¬ substring ":" (Py.strip line) →
  load_line out line = out.
Proof.
  intros Hskip. unfold load_line.
  destruct Hskip as [->|Hno]; [done|].
  destruct (Py.contains ":" (Py.strip line)) eqn:Hc.
  - by apply contains_spec in Hc.
  - by rewrite orb_true_r.
Qed.

Lemma lab_simulate_match_run
    (hashes_path candidates_path htext ctext : string) (max_checks : Z) w :
  files w !! hashes_path = Some htext →
  files w !! candidates_path = Some ctext →
  lab_simulate_match hashes_path candidates_path max_checks w =
  (Ok (matching_pairs
         (foldl load_line [] (Py.readlines htext))
         (Py.strip <$> take (Z.to_nat max_checks) (Py.readlines ctext))),
   World (files w)
     ((trace w ++ [EvOpen hashes_path]) ++ [EvOpen candidates_path])).
Proof.
  intros Hh Hc. unfold lab_simulate_match, mbind, IO_bind.
  rewrite (load_local_sha256_hashes_run hashes_path htext w Hh).
  rewrite (open_read_found candidates_path ctext) by done.
  unfold mret, IO_ret. cbn [files trace].
  rewrite read_candidates_take, find_hits_matching_pairs.
  by rewrite Z.sub_0_r.
Qed.

(** Every run of the matcher begins by opening the hash file. *)
Lemma lab_simulate_match_opens (hashes_path candidates_path : string)
    (max_checks : Z) w :
  ∃ rest, trace (lab_simulate_match hashes_path candidates_path max_checks w).2
          = trace w ++ EvOpen hashes_path :: rest.
Proof.
  unfold lab_simulate_match, mbind, IO_bind, mret, IO_ret.
  pose proof (load_local_sha256_hashes_trace hashes_path w) as Hl.
  destruct (load_local_sha256_hashes hashes_path w) as [[targets|e] w1];
    simpl in Hl.
  - pose proof (open_read_trace candidates_path w1) as Ho.
    destruct (open_read candidates_path w1) as [[f|e] w2]; simpl in Ho |- *;
      exists [EvOpen candidates_path]; rewrite Ho, Hl, <- app_assoc; done.
  - exists []. simpl. by rewrite Hl.
Qed.

End Matcher.

(** C6. With both files present, the matcher keeps the first [max_checks]
    candidate lines (stripped) and ignores the rest without error; the
    loader skips lines that are empty or have no colon; the result holds
    one tuple for each pair of a kept candidate and a table entry with
    equal digests, and nothing else; it is empty when no digest agrees;
    for the table of alice and sha256("hunter2") and the candidate
    "hunter2" it is the single tuple of the specification. *)
Theorem lab_simulate_match_exact :
  (∀ (hashes_path candidates_path htext ctext : string) (max_checks : Z)
     (w : world),
     files w !! hashes_path = Some htext →
     files w !! candidates_path = Some ctext →
     let targets := foldl load_line [] (Py.readlines htext) in
     let cands :=
       Py.strip <$> take (Z.to_nat max_checks) (Py.readlines ctext) in
     ∃ hits,
       (lab_simulate_match hashes_path candidates_path max_checks w).1 = Ok hits
       ∧ hits = matching_pairs targets cands
       ∧ (Z.of_nat (length cands) ≤ Z.max 0 max_checks)%Z
       ∧ (∀ user cand digest,
            (user, cand, digest) ∈ hits ↔
            cand ∈ cands ∧ (user, digest) ∈ targets ∧ sha256_hex cand = digest)
       ∧ ((∀ user cand digest,
             cand ∈ cands → (user, digest) ∈ targets → sha256_hex cand ≠ digest) →
          hits = []))
  ∧ (∀ (out : list (string * string)) (line : string),
       Py.strip line = "" ∨ ¬ substring ":" (Py.strip line) →
       load_line out line = out)
  ∧ (lab_simulate_match "hashes.txt" "candidates.txt" 100000
       (World {[ "hashes.txt" := "alice:" +:+ sha256_hex "hunter2";
                 "candidates.txt" := "hunter2" ]} [])).1
    = Ok [("alice", "hunter2", sha256_hex "hunter2")]
  ∧ (lab_simulate_match "hashes.txt" "candidates.txt" 100000
       (World {[ "hashes.txt" := "alice:" +:+ sha256_hex "hunter2";
                 "candidates.txt" := "letmein" ]} [])).1
    = Ok [].
Proof.
  split; [|split; [apply load_line_skip|split; by vm_compute]].
  intros hashes_path candidates_path htext ctext max_checks w Hh Hc targets cands.
  exists (matching_pairs targets cands).
  split.
  { by rewrite (lab_simulate_match_run _ _ htext ctext max_checks w Hh Hc). }
  split; [done|]. split.
  { unfold cands. rewrite length_fmap, length_take. lia. }
  split; [intros user cand digest; apply elem_of_matching_pairs|].
  intros Hnone. destruct (matching_pairs targets cands) as [|[[u c] d] hits] eqn:E;
    [done|].
  assert (Hin : (u, c, d) ∈ matching_pairs targets cands)
    by (rewrite E; apply list_elem_of_here).
  apply elem_of_matching_pairs in Hin as (Hc' & Ht & Hd).
  by destruct (Hnone u c d Hc' Ht).
Qed.

Lemma lab_simulate_match_exact_witness :
  let NL := String Py.LF "" in
  let w := World {[ "h" := "alice:" +:+ sha256_hex "hunter2" +:+ NL +:+
                           "no colon here" +:+ NL +:+
                           "bob:" +:+ sha256_hex "letmein" +:+ NL;
                    "c" := "hunter2" +:+ NL +:+ "admin" +:+ NL +:+
                           "letmein" +:+ NL ]} [] in
  ∃ htext ctext,
    files w !! "h" = Some htext ∧ files w !! "c" = Some ctext
    ∧ (lab_simulate_match "h" "c" 2 w).1
      = Ok [("alice", "hunter2", sha256_hex "hunter2")].
Proof.
  intros NL w. eexists _, _.
  assert (Hh : files w !! "h" = Some _) by reflexivity.
  assert (Hc : files w !! "c" = Some _) by reflexivity.
  split; [exact Hh|]. split; [exact Hc|].
  destruct (proj1 lab_simulate_match_exact "h" "c" _ _ 2%Z w Hh Hc)
    as (hits & Hrun & Hhits & _).
  rewrite Hrun, Hhits. vm_compute. reflexivity.
Defined.

(** C9. When [--lab] or [--confirm] is absent the command prints the
    refusal and returns: the only new event is that line, no file is
    probed or opened, and the file system is untouched.  Any run of the
    matcher would have left the event of opening the hash file, so the
    matcher has not run. *)
Theorem cmd_lab_sim_gate (colored : string → string → string)
    (args : lab_args) (w : world) :
  lab args = false ∨ confirm args = false →
  cmd_lab_sim colored args w
    = (Ok tt, World (files w) (trace w ++ [EvPrint (colored REFUSAL "red")]))
  ∧ (∃ new, trace (cmd_lab_sim colored args w).2 = trace w ++ new
            ∧ ∀ path, (EvOpen path ∉ new) ∧ (EvExists path ∉ new))
  ∧ (∀ (max_checks : Z) (w0 : world),
       ∃ rest,
         trace (lab_simulate_match (hashes args) (candidates args)
                  max_checks w0).2
         = trace w0 ++ EvOpen (hashes args) :: rest).
Proof.
  intros Hflags.
  assert (Hrun : cmd_lab_sim colored args w
                 = (Ok tt, World (files w)
                             (trace w ++ [EvPrint (colored REFUSAL "red")]))).
  { unfold cmd_lab_sim. destruct Hflags as [-> | ->]; [done|].
    by rewrite orb_true_r. }
  split; [exact Hrun|]. split.
  - exists [EvPrint (colored REFUSAL "red")]. rewrite Hrun. split; [done|].
    intros path. split; by intros [=]%list_elem_of_singleton.
  - intros max_checks w0. apply lab_simulate_match_opens.
Qed.

Lemma cmd_lab_sim_gate_witness :
  let args := LabArgs "hashes.txt" "candidates.txt" true false in
  let w := World {[ "hashes.txt" := "alice:" +:+ sha256_hex "hunter2";
                    "candidates.txt" := "hunter2" ]} [] in
  (lab args = false ∨ confirm args = false)
  ∧ cmd_lab_sim colored_fallback args w
    = (Ok tt, World (files w) [EvPrint REFUSAL]).
Proof.
  intros args w.
  assert (Hflags : lab args = false ∨ confirm args = false) by (by right).
  split; [exact Hflags|].
  exact (proj1 (cmd_lab_sim_gate colored_fallback args w Hflags)).
Defined.

(** * Further properties *)

(** ** More on text *)


Section TextMore.
Implicit Types (s t : string) (c : ascii) (l : list string).











Lemma length_append s t :
  String.length (s +:+ t) = (String.length s + String.length t)%nat.
Proof. induction s as [|c s IH]; [done|]. rewrite app_String. simpl. by rewrite IH. Qed.

Lemma length_chars s : length (Py.chars s) = String.length s.
Proof. induction s as [|c s IH]; simpl; [done|]. by rewrite IH. Qed.



(** Every replacement token is one character, and a letter has at most two. *)
Lemma tokens_unit :
  map_Forall (λ _ toks, Forall (λ x, String.length x = 1%nat) toks
                        ∧ (length toks ≤ 2)%nat) leet_substitutions.
Proof. vm_decide. Qed.


Lemma subs_at_length w (i : nat) : (length (subs_at w i) ≤ 2)%nat.
Proof.
  unfold subs_at, lookup_total, map_lookup_total.
  destruct (leet_substitutions !! _) as [toks|] eqn:Hk; simpl; [|lia].
  by apply tokens_unit in Hk as [_ Hk].
Qed.

End TextMore.

(** ** More on the variation generator *)

Section GeneratorMore.
Implicit Types (word w s : string) (vs : gset string) (level N : Z).

Lemma elem_of_add_singles w vs s :
  s ∈ add_singles w (leet_indices w) vs ↔ s ∈ vs ∨ single_variant w s.
Proof.
  unfold add_singles, single_variant.
  rewrite (elem_of_foldl_add _
    (λ i, ∃ sub, sub ∈ subs_at w i ∧ s = Py.join (<[i := sub]> (Py.chars w)))).
  - split; (intros [?|H]; [by left|right]).
    + destruct H as (i & Hi & sub & Hsub & ->). by eexists _, _.
    + destruct H as (i & sub & Hi & Hsub & ->). exists i. split; [done|].
      by exists sub.
  - intros r i.
    rewrite (elem_of_foldl_add _
      (λ sub, s = Py.join (<[i := sub]> (Py.chars w)))); [done|].
    intros r' sub. rewrite elem_of_union, elem_of_singleton. tauto.
Qed.

Lemma elem_of_add_pairs w vs s :
  s ∈ add_pairs w (leet_indices w) vs ↔ s ∈ vs ∨ pair_variant w s.
Proof.
  unfold add_pairs, pair_variant.
  rewrite (elem_of_foldl_add _
    (λ ab : nat * nat, ∃ sa sb, sa ∈ subs_at w ab.1 ∧ sb ∈ subs_at w ab.2
       ∧ s = Py.join (<[ab.2 := sb]> (<[ab.1 := sa]> (Py.chars w))))).
  - split; (intros [?|H]; [by left|right]).
    + destruct H as ([a b] & Hab & sa & sb & ?). by eexists _, _, _, _.
    + destruct H as (a & b & sa & sb & Hab & ?). exists (a, b). split; [done|]. by eexists _, _.
  - intros r [a b]. cbn [fst snd].
    rewrite (elem_of_foldl_add _
      (λ sa, ∃ sb, sb ∈ subs_at w b
         ∧ s = Py.join (<[b := sb]> (<[a := sa]> (Py.chars w))))).
    + split; (intros [?|H]; [by left|right]).
      * destruct H as (sa & Hsa & sb & Hsb & ?). by eexists _, _.
      * destruct H as (sa & sb & Hsa & Hsb & ?). exists sa. split; [done|].
        by exists sb.
    + intros r' sa.
      rewrite (elem_of_foldl_add _
        (λ sb, s = Py.join (<[b := sb]> (<[a := sa]> (Py.chars w))))); [done|].
      intros r'' sb. rewrite elem_of_union, elem_of_singleton. tauto.
Qed.

Lemma elem_of_add_triples w vs s :
  s ∈ add_triples w (leet_indices w) vs ↔ s ∈ vs ∨ triple_variant w s.
Proof.
  unfold add_triples, triple_variant. cbv zeta.
  rewrite (elem_of_foldl_add _
    (λ t : nat * nat * nat, ∃ sa sb sc,
       sa ∈ take 1 (subs_at w t.1.1) ∧ sb ∈ take 1 (subs_at w t.1.2)
       ∧ sc ∈ take 1 (subs_at w t.2)
       ∧ s = Py.join (<[t.2 := sc]> (<[t.1.2 := sb]>
                        (<[t.1.1 := sa]> (Py.chars w)))))).
  - split; (intros [?|H]; [by left|right]).
    + destruct H as ([[a b] c] & Ht & sa & sb & sc & ?).
      by eexists _, _, _, _, _, _.
    + destruct H as (a & b & c & sa & sb & sc & Ht & ?).
      exists (a, b, c). split; [done|]. by eexists _, _, _.
  - intros r [[a b] c]. cbn [fst snd].
    rewrite (elem_of_foldl_add _
      (λ sa, ∃ sb sc, sb ∈ take 1 (subs_at w b) ∧ sc ∈ take 1 (subs_at w c)
         ∧ s = Py.join (<[c := sc]> (<[b := sb]> (<[a := sa]> (Py.chars w)))))).
    + split; (intros [?|H]; [by left|right]).
      * destruct H as (sa & Hsa & sb & sc & ?). by eexists _, _, _.
      * destruct H as (sa & sb & sc & Hsa & ?). exists sa. split; [done|].
        by eexists _, _.
    + intros r1 sa.
      rewrite (elem_of_foldl_add _
        (λ sb, ∃ sc, sc ∈ take 1 (subs_at w c)
           ∧ s = Py.join (<[c := sc]> (<[b := sb]> (<[a := sa]> (Py.chars w)))))).
      * split; (intros [?|H]; [by left|right]).
        -- destruct H as (sb & Hsb & sc & ?). by eexists _, _.
        -- destruct H as (sb & sc & Hsb & ?). exists sb. split; [done|].
           by eexists _.
      * intros r2 sb.
        rewrite (elem_of_foldl_add _
          (λ sc, s = Py.join (<[c := sc]> (<[b := sb]>
                                (<[a := sa]> (Py.chars w)))))); [done|].
        intros r3 sc. rewrite elem_of_union, elem_of_singleton. tauto.
Qed.

(** What the accumulated set holds, level by level. *)
Lemma elem_of_leet_variations word level s :
  s ∈ leet_variations word level ↔
  s ∈ base_casings word
  ∨ ((1 ≤ level)%Z ∧ single_variant (Py.lower word) s)
  ∨ ((2 ≤ level)%Z ∧ pair_variant (Py.lower word) s)
  ∨ ((3 ≤ level)%Z ∧ triple_variant (Py.lower word) s).
Proof.
  unfold leet_variations.
  destruct (Z.leb_spec 1 level), (Z.leb_spec 2 level), (Z.leb_spec 3 level);
    rewrite ?elem_of_add_triples, ?elem_of_add_pairs, ?elem_of_add_singles;
    intuition lia.
Qed.



Lemma length_substituted w (lst : list string) (i : nat) sub :
  Forall (λ x, String.length x = 1%nat) lst → String.length sub = 1%nat →
  Forall (λ x, String.length x = 1%nat) (<[i := sub]> lst).
Proof. intros. by apply Forall_insert. Qed.




Lemma word_in_leet_variations word level : word ∈ leet_variations word level.
Proof.
  apply elem_of_leet_variations. left. apply elem_of_base_casings. by left.
Qed.

Lemma size_leet_variations_pos word level : (0 < size (leet_variations word level))%nat.
Proof.
  destruct (size (leet_variations word level)) eqn:E; [|lia].
  apply size_empty_inv in E. pose proof (word_in_leet_variations word level) as Hw.
  rewrite E in Hw. by apply elem_of_empty in Hw.
Qed.

(** X2. The number of strings returned: [max_results] caps it from above
    when it is not negative, a negative [max_results] drops that many
    strings from the end of the sorted list, and the variation set is never
    empty; so the result is empty only for [max_results = 0] or for a
    negative one that drops everything. *)
Theorem generate_length (word : string) (level N : Z) :
  let n := Z.of_nat (size (leet_variations word level)) in
  (1 ≤ n)%Z
  ∧ Z.of_nat (length (generate_leetspeak_variations word level N))
    = (if (0 <=? N)%Z then Z.min N n else Z.max 0 (n + N))%Z
  ∧ (generate_leetspeak_variations word level N = [] ↔
     (N = 0 ∨ n + N ≤ 0)%Z).
Proof.
  intros n. pose proof (size_leet_variations_pos word level) as Hpos.
  assert (Hlen : Z.of_nat (length (generate_leetspeak_variations word level N))
    = (if (0 <=? N)%Z then Z.min N n else Z.max 0 (n + N))%Z).
  { unfold generate_leetspeak_variations, Py.slice_to.
    destruct (Z.leb_spec 0 N); rewrite length_take, length_sorted; lia. }
  split; [lia|]. split; [exact Hlen|].
  rewrite <- length_zero_iff_nil. destruct (Z.leb_spec 0 N); lia.
Qed.

(** X3. A level above 3 behaves as level 3 and a level below 0 as level
    0. *)
Theorem level_out_of_range (word : string) (level N : Z) :
  generate_leetspeak_variations word level N
  = generate_leetspeak_variations word (Z.max 0 (Z.min 3 level)) N.
Proof.
  unfold generate_leetspeak_variations, leet_variations.
  destruct (Z.leb_spec 1 level), (Z.leb_spec 2 level), (Z.leb_spec 3 level),
    (Z.leb_spec 1 (Z.max 0 (Z.min 3 level))),
    (Z.leb_spec 2 (Z.max 0 (Z.min 3 level))),
    (Z.leb_spec 3 (Z.max 0 (Z.min 3 level))); solve [reflexivity | lia].
Qed.


(** A loop whose every step adds at most [c] strings. *)
Lemma size_foldl_add {A} (f : gset string → A → gset string) (c : nat)
    (l : list A) vs :
  (∀ vs a, (size (f vs a) ≤ size vs + c)%nat) →
  (size (foldl f vs l) ≤ size vs + c * length l)%nat.
Proof.
  intros Hf. revert vs. induction l as [|a l IH]; intros vs; simpl; [lia|].
  specialize (IH (f vs a)). specialize (Hf vs a). lia.
Qed.

Lemma size_add_one (x : string) vs : (size ({[ x ]} ∪ vs) ≤ size vs + 1)%nat.
Proof.
  pose proof (size_union_le {[ x ]} vs) as H. rewrite size_singleton in H. lia.
Qed.

Lemma length_leet_indices w : (length (leet_indices w) ≤ String.length w)%nat.
Proof.
  unfold leet_indices. rewrite length_fmap.
  etrans; [apply length_filter|]. by rewrite length_imap, length_chars.
Qed.

Lemma size_add_singles w vs :
  (size (add_singles w (leet_indices w) vs) ≤ size vs + 2 * String.length w)%nat.
Proof.
  unfold add_singles.
  etrans; [apply (size_foldl_add _ 2)|].
  - intros vs1 i.
    etrans; [apply (size_foldl_add _ 1); intros; apply size_add_one|].
    pose proof (subs_at_length w i). lia.
  - pose proof (length_leet_indices w). lia.
Qed.

Lemma length_take_1 {A} (l : list A) : (length (take 1 l) ≤ 1)%nat.
Proof. rewrite length_take. lia. Qed.

Lemma size_add_triples w (indices : list nat) vs :
  (size (add_triples w indices vs) ≤ size vs + 50)%nat.
Proof.
  unfold add_triples. cbv zeta.
  etrans; [apply (size_foldl_add _ 1)|].
  - intros vs1 [[a b] c].
    etrans; [apply (size_foldl_add _ 1)|].
    + intros vs2 sa. etrans; [apply (size_foldl_add _ 1)|].
      * intros vs3 sb. etrans; [apply (size_foldl_add _ 1)|].
        -- intros vs4 sc. apply size_add_one.
        -- pose proof (length_take_1 (subs_at w c)). lia.
      * pose proof (length_take_1 (subs_at w b)). lia.
    + pose proof (length_take_1 (subs_at w a)). lia.
  - rewrite length_take. lia.
Qed.

(** X5. The caps on the output: at most 4 strings at level 0, at most
    [4 + 2 * len(word)] at level 1, and level 3 adds at most 50 strings to
    level 2. *)
Theorem level_size_caps (word : string) :
  (size (leet_variations word 0) ≤ 4)%nat
  ∧ (size (leet_variations word 1) ≤ 4 + 2 * String.length word)%nat
  ∧ (size (leet_variations word 3) ≤ size (leet_variations word 2) + 50)%nat.
Proof.
  split; [apply size_base_casings|]. split.
  - change (leet_variations word 1)
      with (add_singles (Py.lower word) (leet_indices (Py.lower word))
              (base_casings word)).
    etrans; [apply size_add_singles|].
    pose proof (size_base_casings word). rewrite length_lower. lia.
  - change (leet_variations word 3)
      with (add_triples (Py.lower word) (leet_indices (Py.lower word))
              (leet_variations word 2)).
    apply size_add_triples.
Qed.

Lemma token_at_iff w (i : nat) sub :
  i ∈ leet_indices w ∧ sub ∈ subs_at w i ↔ token_at w i sub.
Proof.
  unfold token_at, subs_at. rewrite elem_of_leet_indices. split.
  - intros [(ch & Hi & [toks Hch]) Hsub]. exists ch, toks.
    rewrite (list_lookup_total_correct _ _ _ Hi) in Hsub.
    by rewrite (lookup_total_correct _ _ _ Hch) in Hsub.
  - intros (ch & toks & Hi & Hch & Hsub).
    rewrite (list_lookup_total_correct _ _ _ Hi), (lookup_total_correct _ _ _ Hch).
    split; [|done]. exists ch. split; [done|]. by exists toks.
Qed.

(** [itertools.combinations(l, k)] yields the subsequences of length [k]. *)
Lemma elem_of_combinations {A} (l c : list A) (k : nat) :
  c ∈ Py.combinations l k ↔ c `sublist_of` l ∧ length c = k.
Proof.
  revert c k. induction l as [|x l IH]; intros c [|k]; simpl.
  - rewrite list_elem_of_singleton, sublist_nil_r, length_zero_iff_nil. tauto.
  - rewrite elem_of_nil, sublist_nil_r. split; [done|]. by intros [-> ?].
  - rewrite list_elem_of_singleton, length_zero_iff_nil. split.
    + intros ->. split; [apply sublist_nil_l|done].
    + tauto.
  - rewrite elem_of_app, list_elem_of_fmap, sublist_cons_r, IH. split.
    + intros [(c' & -> & [Hc' <-]%IH)|[Hc Hk]].
      * split; [|done]. right. by exists c'.
      * split; [by left|done].
    + intros [[Hc|(c' & -> & Hc')] Hk]; [by right|].
      left. exists c'. split; [done|]. apply IH. split; [done|].
      simpl in Hk. lia.
Qed.

Lemma sublist_elem_of_2 {A} (l1 l2 : list A) (x : A) :
  l1 `sublist_of` l2 → x ∈ l1 → x ∈ l2.
Proof.
  induction 1 as [|y l1 l2 _ IH|y l1 l2 _ IH]; [done| |].
  - intros [->|Hx]%elem_of_cons; [apply list_elem_of_here|].
    apply list_elem_of_further. by apply IH.
  - intros Hx. apply list_elem_of_further. by apply IH.
Qed.

Lemma sublist_StronglySorted {A} (R : relation A) (l1 l2 : list A) :
  l1 `sublist_of` l2 → StronglySorted R l2 → StronglySorted R l1.
Proof.
  induction 1 as [|y l1 l2 Hsub IH|y l1 l2 Hsub IH]; [done| |];
    intros [Hall Hs]%StronglySorted_cons; [|by apply IH].
  apply StronglySorted_cons. split; [|by apply IH].
  apply Forall_forall. intros x Hx.
  apply (proj1 (Forall_forall _ _) Hall). by eapply sublist_elem_of_2.
Qed.

Lemma StronglySorted_seq (start n : nat) : StronglySorted lt (seq start n).
Proof.
  revert start. induction n as [|n IH]; intros start; simpl; [constructor|].
  constructor; [apply IH|]. apply Forall_forall. intros x Hx%elem_of_seq. lia.
Qed.

Lemma imap_pair_fst {A} (l : list A) (g : nat → nat) :
  (imap (λ i x, (g i, x)) l).*1 = g <$> seq 0 (length l).
Proof.
  revert g. induction l as [|x l IH]; intros g; [done|].
  rewrite imap_cons. cbn [fmap list_fmap fst length seq]. f_equal.
  rewrite <- fmap_S_seq, <- list_fmap_compose. apply (IH (g ∘ S)).
Qed.

(** The substitutable positions come in increasing order. *)
Lemma leet_indices_sorted w : StronglySorted lt (leet_indices w).
Proof.
  unfold leet_indices.
  eapply (sublist_StronglySorted _ _ ((imap (λ i ch, (i, ch)) (Py.chars w)).*1)).
  - apply fmap_sublist, sublist_filter.
  - rewrite (imap_pair_fst (Py.chars w) (λ j, j)), list_fmap_id.
    apply StronglySorted_seq.
Qed.

Lemma pair_sublist_sorted (l : list nat) (a b : nat) :
  StronglySorted lt l →
  [a; b] `sublist_of` l ↔ (a < b)%nat ∧ a ∈ l ∧ b ∈ l.
Proof.
  intros Hl. split.
  - intros Hsub. pose proof (sublist_StronglySorted _ _ _ Hsub Hl) as Hab.
    apply StronglySorted_cons in Hab as [Hab _].
    apply Forall_cons in Hab as [Hab _].
    split; [done|].
    split; eapply sublist_elem_of_2; try done;
      [apply list_elem_of_here|apply list_elem_of_further, list_elem_of_here].
  - intros (Hab & Ha & Hb).
    apply list_elem_of_split in Ha as (l1 & l2 & ->).
    apply sublist_inserts_l, sublist_skip, singleton_sublist_l.
    apply elem_of_app in Hb as [Hb|Hb].
    + assert (b < a)%nat; [|lia].
      eapply (StronglySorted_app_1_elem_of lt); [done|done|apply list_elem_of_here].
    + apply elem_of_cons in Hb as [->|Hb]; [lia|done].
Qed.

Lemma elem_of_leet_pairs w (a b : nat) :
  (a, b) ∈ omap as_pair (Py.combinations (leet_indices w) 2) ↔
  (a < b)%nat ∧ a ∈ leet_indices w ∧ b ∈ leet_indices w.
Proof.
  rewrite list_elem_of_omap, <- (pair_sublist_sorted _ _ _ (leet_indices_sorted w)).
  split.
  - intros (c & [Hc Hlen]%elem_of_combinations & Hpair).
    destruct c as [|x [|y [|z c]]]; try done. by injection Hpair as -> ->.
  - intros Hsub. exists [a; b]. split; [|done].
    by apply elem_of_combinations.
Qed.

(** X6. Level 1 adds to the base casings exactly the strings with one
    substitutable position of the lowercased word replaced by one of its
    tokens, and level 2 adds to level 1 exactly those with two distinct
    positions replaced, each by one of its tokens. *)
Theorem levels_1_2_exact (word s : string) :
  let w := Py.lower word in
  (s ∈ leet_variations word 1 ↔
   s ∈ base_casings word
   ∨ ∃ i sub, token_at w i sub ∧ s = Py.join (<[i := sub]> (Py.chars w)))
  ∧ (s ∈ leet_variations word 2 ↔
     s ∈ leet_variations word 1
     ∨ ∃ a b sa sb, (a < b)%nat ∧ token_at w a sa ∧ token_at w b sb
         ∧ s = Py.join (<[b := sb]> (<[a := sa]> (Py.chars w)))).
Proof.
  intros w.
  assert (H1 : single_variant w s ↔
    ∃ i sub, token_at w i sub ∧ s = Py.join (<[i := sub]> (Py.chars w))).
  { unfold single_variant. split.
    - intros (i & sub & Hi & Hsub & ->). exists i, sub.
      split; [by apply token_at_iff|done].
    - intros (i & sub & [Hi Hsub]%token_at_iff & ->). by exists i, sub. }
  assert (H2 : pair_variant w s ↔
    ∃ a b sa sb, (a < b)%nat ∧ token_at w a sa ∧ token_at w b sb
      ∧ s = Py.join (<[b := sb]> (<[a := sa]> (Py.chars w)))).
  { unfold pair_variant. split.
    - intros (a & b & sa & sb & (Hab & Ha & Hb)%elem_of_leet_pairs & Hsa & Hsb & ->).
      exists a, b, sa, sb. split; [done|].
      split; [by apply token_at_iff|]. split; [by apply token_at_iff|done].
    - intros (a & b & sa & sb & Hab & [Ha Hsa]%token_at_iff
              & [Hb Hsb]%token_at_iff & ->).
      exists a, b, sa, sb. split; [by apply elem_of_leet_pairs|done]. }
  rewrite !elem_of_leet_variations, <- H1, <- H2. split; intuition lia.
Qed.

End GeneratorMore.

(** ** More on the pattern combinators *)

Section Combinators.
Implicit Types (words patterns : list string) (s w p keyword : string).

Lemma size_list_to_set_le words :
  (size (list_to_set words : gset string) ≤ length words)%nat.
Proof.
  induction words as [|w words IH]; [by vm_compute|].
  rewrite list_to_set_cons. simpl.
  pose proof (size_add_one w (list_to_set words)). lia.
Qed.

(** X7. The result of [add_common_patterns] is strictly sorted (so without
    duplicates), holds at most [len(words) * (1 + 3 * len(patterns))]
    strings, is the sorted set of the words when there is no pattern, and
    is empty when there is no word. *)
Theorem add_common_patterns_shape words patterns :
  StronglySorted str_lt (add_common_patterns words patterns)
  ∧ (length (add_common_patterns words patterns)
     ≤ length words * (1 + 3 * length patterns))%nat
  ∧ add_common_patterns words [] = Py.sorted (list_to_set words)
  ∧ add_common_patterns [] patterns = [].
Proof.
  split; [apply sorted_lt|]. split; [|split; [|reflexivity]].
  - unfold add_common_patterns. rewrite length_sorted.
    etrans; [apply (size_foldl_add _ (3 * length patterns))|].
    + intros vs w. etrans; [apply (size_foldl_add _ 3)|lia].
      intros vs' p.
      pose proof (size_add_one (w +:+ "_" +:+ p)
                    ({[p +:+ w]} ∪ ({[w +:+ p]} ∪ vs'))).
      pose proof (size_add_one (p +:+ w) ({[w +:+ p]} ∪ vs')).
      pose proof (size_add_one (w +:+ p) vs'). lia.
    + pose proof (size_list_to_set_le words). lia.
  - unfold add_common_patterns. f_equal.
    generalize (list_to_set words : gset string).
    induction words as [|w words IH]; intros vs; simpl; [done|apply IH].
Qed.

Lemma elem_of_generate_common_passwords keyword s :
  s ∈ generate_common_passwords keyword ↔
  ∃ v p, v ∈ casings keyword ∧ p ∈ common_patterns
         ∧ (s = v +:+ p ∨ s = p +:+ v).
Proof.
  unfold generate_common_passwords. cbv zeta. rewrite elem_of_sorted.
  rewrite (elem_of_foldl_add _
    (λ v, ∃ p, p ∈ common_patterns ∧ (s = v +:+ p ∨ s = p +:+ v))).
  - split.
    + intros [[]%elem_of_empty|(v & Hv & p & Hp & Hs)]. by exists v, p.
    + intros (v & p & Hv & Hp & Hs). right. exists v. split; [done|].
      by exists p.
  - intros r v.
    apply (elem_of_foldl_add _ (λ p, s = v +:+ p ∨ s = p +:+ v)).
    intros r' p. rewrite !elem_of_union, !elem_of_singleton. tauto.
Qed.



End Combinators.

(** ** The charset filter *)

Section FilterFacts.
Variable re_search : string → string → bool.
Implicit Types (words : list string) (w : string) (min_len max_len : Z)
  (regex_allow : option string).

Lemma filter_by_charset_loop words min_len max_len regex_allow (out : list string) :
  foldl (λ out w,
    let n := Z.of_nat (String.length w) in
    if (n <? min_len)%Z || (max_len <? n)%Z then out
    else if rejected_by re_search regex_allow w then out
    else out ++ [w]) out words
  = out ++ filter (kept re_search min_len max_len regex_allow) words.
Proof.
  revert out. induction words as [|w words IH]; intros out; simpl;
    [by rewrite app_nil_r|].
  rewrite IH, filter_cons.
  destruct (decide (kept re_search min_len max_len regex_allow w))
    as [[Hlen Hr]|Hn].
  - rewrite (proj2 (Z.ltb_ge _ _)), (proj2 (Z.ltb_ge _ _)), Hr by lia.
    simpl. by rewrite <- app_assoc.
  - destruct (Z.ltb_spec (Z.of_nat (String.length w)) min_len),
             (Z.ltb_spec max_len (Z.of_nat (String.length w))); simpl;
      try done.
    destruct (rejected_by re_search regex_allow w) eqn:Hr; [done|].
    destruct Hn. split; [lia|done].
Qed.

Lemma filter_by_charset_filter words min_len max_len regex_allow :
  filter_by_charset re_search words min_len max_len regex_allow
  = filter (kept re_search min_len max_len regex_allow) words.
Proof. unfold filter_by_charset. by rewrite filter_by_charset_loop. Qed.

(** X9. [filter_by_charset] keeps, in their order, exactly the words whose
    length is within [min_len, max_len] and which, when a non-empty
    pattern is given, match it; nothing is kept when the bounds cross. *)
Theorem filter_by_charset_exact words min_len max_len regex_allow :
  filter_by_charset re_search words min_len max_len regex_allow
    `sublist_of` words
  ∧ (∀ w, w ∈ filter_by_charset re_search words min_len max_len regex_allow ↔
          w ∈ words
          ∧ (min_len ≤ Z.of_nat (String.length w) ≤ max_len)%Z
          ∧ (∀ r, regex_allow = Some r → r ≠ "" → re_search r w = true))
  ∧ ((max_len < min_len)%Z →
     filter_by_charset re_search words min_len max_len regex_allow = []).
Proof.
  rewrite filter_by_charset_filter.
  split; [apply sublist_filter|]. split.
  - intros w. rewrite list_elem_of_filter. unfold kept, rejected_by.
    destruct regex_allow as [r|].
    + destruct (String.eqb_spec r "") as [->|Hr]; simpl.
      * split.
        -- intros [[Hb _] Hw]. split; [done|]. split; [done|].
           by intros r' [= <-].
        -- intros (Hw & Hb & _). done.
      * rewrite negb_false_iff. split.
        -- intros [[Hb Hs] Hw]. split; [done|]. split; [done|].
           by intros r' [= <-] _.
        -- intros (Hw & Hb & Hs). split; [|done]. split; [done|]. by apply Hs.
    + split.
      * intros [[Hb _] Hw]. split; [done|]. split; [done|]. by intros r' [=].
      * intros (Hw & Hb & _). done.
  - intros Hcross. induction words as [|w words IH]; [done|].
    rewrite filter_cons, IH. rewrite decide_False; [done|].
    intros [? _]. lia.
Qed.

(** X10. Filtering twice is filtering once, filtering a concatenation is
    concatenating the filtered parts, and the empty pattern filters as no
    pattern. *)
Theorem filter_by_charset_composes words words' min_len max_len regex_allow :
  filter_by_charset re_search
    (filter_by_charset re_search words min_len max_len regex_allow)
    min_len max_len regex_allow
  = filter_by_charset re_search words min_len max_len regex_allow
  ∧ filter_by_charset re_search (words ++ words') min_len max_len regex_allow
    = filter_by_charset re_search words min_len max_len regex_allow
      ++ filter_by_charset re_search words' min_len max_len regex_allow
  ∧ filter_by_charset re_search words min_len max_len (Some "")
    = filter_by_charset re_search words min_len max_len None.
Proof.
  rewrite !filter_by_charset_filter. split; [|split].
  - by rewrite list_filter_filter_l.
  - apply filter_app.
  - apply list_filter_iff. intros w. by unfold kept.
Qed.

End FilterFacts.

Lemma filter_by_charset_exact_witness :
  (3 < 5)%Z ∧ filter_by_charset (λ _ _, true) ["abcd"; "ab"] 5 3 None = [].
Proof.
  assert (Hcross : (3 < 5)%Z) by lia.
  split; [exact Hcross|].
  exact (proj2 (proj2 (filter_by_charset_exact (λ _ _, true) ["abcd"; "ab"]
                         5 3 None)) Hcross).
Defined.

(** ** More on the entropy estimate and the policy checker *)

Section PolicyMore.
Implicit Types (password lower b : string) (policy : gmap string value)
  (bans : list string) (failures : list string).

(** X11. The estimate is never negative, whatever [math.log2] returns. *)
Theorem estimate_entropy_bits_not_negative (log2 : Z → float) password :
  PrimFloat.ltb (estimate_entropy_bits log2 password) 0%float = false.
Proof.
  unfold estimate_entropy_bits. cbv zeta. case_match; [reflexivity|].
  unfold Float.max0. by case_match.
Qed.

Lemma check_banned_strings lower bans failures :
  check_banned lower (VStr <$> bans) failures
  = Ok (failures ++ ((λ b, "contains_" +:+ b)
                       <$> filter (λ b, Py.contains b lower = true) bans)).
Proof.
  revert failures. induction bans as [|b bans IH]; intros failures; simpl.
  - by rewrite app_nil_r.
  - rewrite IH, filter_cons. destruct (Py.contains b lower) eqn:Hb.
    + rewrite decide_True by done. by rewrite <- app_assoc.
    + by rewrite decide_False.
Qed.

(** The run of [policy_check] on a policy with fields of the expected
    types. *)
Lemma policy_check_typed password policy (n : Z) bans :
  policy !! "min_length" = Some (VInt n) →
  Dict.get policy "ban_substrings" (VList []) = VList (VStr <$> bans) →
  policy_check password (Some policy)
  = let failures :=
      policy_failures password n
        (truthy (Dict.get policy "require_upper" VNone))
        (truthy (Dict.get policy "require_digit" VNone)) bans in
    Ok (bool_decide (failures = []), failures).
Proof.
  intros Hmin Hbans. unfold policy_check, Dict.getitem. rewrite Hmin, Hbans.
  cbn [rbind int_lt iterate]. rewrite check_banned_strings. cbn [rbind].
  unfold policy_failures. cbv zeta.
  assert (E1 : bool_decide (Z.of_nat (String.length password) < n)%Z
               = (Z.of_nat (String.length password) <? n)%Z).
  { destruct (Z.ltb_spec (Z.of_nat (String.length password)) n);
      [by apply bool_decide_eq_true_2|apply bool_decide_eq_false_2; lia]. }
  assert (E2 : ∀ (cls : ascii → bool) (P : ascii → Prop) `{!∀ c, Decision (P c)}
                 (flag : bool),
            (∀ c, cls c = true ↔ P c) →
            bool_decide (flag = true ∧ ¬ has_char P password)
            = flag && negb (Re.search_class cls password)).
  { intros cls P ? flag HP.
    pose proof (search_class_false cls P password HP) as Hno.
    destruct flag, (negb (Re.search_class cls password)); simpl.
    - apply bool_decide_eq_true_2. split; [done|]. by apply Hno.
    - apply bool_decide_eq_false_2. intros [_ Hn]. by apply Hno in Hn.
    - done.
    - done. }
  rewrite E1, (E2 _ _ _ _ is_upper_spec), (E2 _ _ _ _ is_digit_spec).
  set (found := (λ b, "contains_" +:+ b) <$> filter _ bans).
  destruct (Z.of_nat (String.length password) <? n)%Z,
    (truthy (Dict.get policy "require_upper" VNone)
     && negb (Re.search_class Py.is_upper password)),
    (truthy (Dict.get policy "require_digit" VNone)
     && negb (Re.search_class Py.is_digit password)), found; done.
Qed.

Lemma list_ascii_of_string_app (s t : string) :
  String.list_ascii_of_string (s +:+ t)
  = String.list_ascii_of_string s ++ String.list_ascii_of_string t.
Proof. induction s as [|c s IH]; [done|]. rewrite app_String. simpl. by rewrite IH. Qed.

Lemma has_char_substring (P : ascii → Prop) (sub s : string) :
  substring sub s → has_char P sub → has_char P s.
Proof.
  intros (pre & post & ->) (c & Hc & HP). exists c. split; [|done].
  rewrite !list_ascii_of_string_app, !elem_of_app. auto.
Qed.

(** The codes [contains_...] of a typed policy. *)
Lemma elem_of_policy_failures_contains password (n : Z) (ru rd : bool) bans b :
  "contains_" +:+ b ∈ policy_failures password n ru rd bans ↔
  b ∈ bans ∧ substring b (Py.lower password).
Proof.
  unfold policy_failures. rewrite !elem_of_app, list_elem_of_fmap.
  setoid_rewrite list_elem_of_filter. setoid_rewrite contains_spec.
  split.
  - intros [H|[H|[H|(b' & Hb & Hsub & Hin)]]].
    + case_bool_decide; [|by apply elem_of_nil in H].
      apply list_elem_of_singleton in H. rewrite app_String in H. discriminate.
    + case_bool_decide; [|by apply elem_of_nil in H].
      apply list_elem_of_singleton in H. rewrite app_String in H. discriminate.
    + case_bool_decide; [|by apply elem_of_nil in H].
      apply list_elem_of_singleton in H. rewrite app_String in H. discriminate.
    + apply (inj (String.app "contains_")) in Hb as ->. done.
  - intros [Hin Hsub]. right; right; right. by exists b.
Qed.

(** X12. A policy whose fields have the expected types never raises: the
    failure list is the closed form [policy_failures], with one
    [contains_b] for each banned string [b] found in the lowercased
    password, in the order of the list; a flag counts as set when it is
    truthy. *)
Theorem policy_check_custom password policy (n : Z) bans :
  policy !! "min_length" = Some (VInt n) →
  Dict.get policy "ban_substrings" (VList []) = VList (VStr <$> bans) →
  ∃ failures,
    policy_check password (Some policy)
      = Ok (bool_decide (failures = []), failures)
    ∧ failures = policy_failures password n
                   (truthy (Dict.get policy "require_upper" VNone))
                   (truthy (Dict.get policy "require_digit" VNone)) bans
    ∧ (∀ b, "contains_" +:+ b ∈ failures ↔
            b ∈ bans ∧ substring b (Py.lower password)).
Proof.
  intros Hmin Hbans. eexists. split; [by apply policy_check_typed|].
  split; [done|]. intros b. apply elem_of_policy_failures_contains.
Qed.

Lemma policy_check_custom_witness :
  let policy : gmap string value :=
    {[ "min_length" := VInt 6; "require_digit" := VInt 1;
       "ban_substrings" := VList (VStr <$> ["qwerty"; "abc"]) ]} in
  policy !! "min_length" = Some (VInt 6)
  ∧ Dict.get policy "ban_substrings" (VList []) = VList (VStr <$> ["qwerty"; "abc"])
  ∧ policy_check "xAbCx" (Some policy)
    = Ok (false, ["too_short"; "missing_digit"; "contains_abc"]).
Proof.
  intros policy.
  assert (Hmin : policy !! "min_length" = Some (VInt 6)) by reflexivity.
  assert (Hbans : Dict.get policy "ban_substrings" (VList [])
                  = VList (VStr <$> ["qwerty"; "abc"])) by reflexivity.
  split; [exact Hmin|]. split; [exact Hbans|].
  destruct (policy_check_custom "xAbCx" policy 6 ["qwerty"; "abc"] Hmin Hbans)
    as (failures & Hrun & -> & _).
  rewrite Hrun. vm_compute. reflexivity.
Defined.

(** X13. A banned string that holds an uppercase letter is never reported:
    it is searched in the lowercased password. *)
Theorem uppercase_ban_never_reported password policy (n : Z) bans b :
  policy !! "min_length" = Some (VInt n) →
  Dict.get policy "ban_substrings" (VList []) = VList (VStr <$> bans) →
  has_char uppercase_letter b →
  ∃ passed failures,
    policy_check password (Some policy) = Ok (passed, failures)
    ∧ "contains_" +:+ b ∉ failures.
Proof.
  intros Hmin Hbans Hup. eexists _, _. split; [by apply policy_check_typed|].
  intros [_ Hsub]%elem_of_policy_failures_contains.
  eapply lower_no_upper, has_char_substring; done.
Qed.

Lemma uppercase_ban_never_reported_witness :
  let policy : gmap string value :=
    {[ "min_length" := VInt 1;
       "ban_substrings" := VList (VStr <$> ["Password"]) ]} in
  policy !! "min_length" = Some (VInt 1)
  ∧ Dict.get policy "ban_substrings" (VList []) = VList (VStr <$> ["Password"])
  ∧ has_char uppercase_letter "Password"
  ∧ ∃ passed failures,
      policy_check "MyPassword" (Some policy) = Ok (passed, failures)
      ∧ "contains_Password" ∉ failures.
Proof.
  intros policy.
  assert (Hmin : policy !! "min_length" = Some (VInt 1)) by reflexivity.
  assert (Hbans : Dict.get policy "ban_substrings" (VList [])
                  = VList (VStr <$> ["Password"])) by reflexivity.
  assert (Hup : has_char uppercase_letter "Password") by vm_decide.
  split; [exact Hmin|]. split; [exact Hbans|]. split; [exact Hup|].
  exact (uppercase_ban_never_reported "MyPassword" policy 1 ["Password"]
           "Password" Hmin Hbans Hup).
Defined.




End PolicyMore.

(** ** More on the hash table and the matcher *)

Section TableMore.
Implicit Types (out : list (string * string)) (line user digest k v : string)
  (w : world).

Lemma ODict_set_keys out k v :
  (ODict.set out k v).*1 = if decide (k ∈ out.*1) then out.*1 else out.*1 ++ [k].
Proof.
  induction out as [|[k' v'] out IH].
  - cbn [ODict.set fmap list_fmap fst].
    case_decide as Hin; [by apply elem_of_nil in Hin|done].
  - cbn [ODict.set]. destruct (String.eqb_spec k' k) as [->|Hne].
    + rewrite !fmap_cons. cbn [fst]. clear IH.
      case_decide as Hout; [done|]. destruct Hout. apply list_elem_of_here.
    + rewrite !fmap_cons, IH. cbn [fst]. clear IH.
      destruct (decide (k ∈ out.*1)) as [Hin|Hout],
               (decide (k ∈ k' :: out.*1)) as [Hin'|Hout']; try done.
      * destruct Hout'. by apply list_elem_of_further.
      * apply elem_of_cons in Hin' as [->|?]; done.
Qed.

Lemma NoDup_ODict_set out k v : NoDup out.*1 → NoDup (ODict.set out k v).*1.
Proof.
  intros Hnd. rewrite ODict_set_keys. case_decide; [done|].
  apply NoDup_app. split; [done|]. split; [|apply NoDup_singleton].
  intros x Hx ->%list_elem_of_singleton. done.
Qed.

Lemma elem_of_ODict_set_new out k v : (k, v) ∈ ODict.set out k v.
Proof.
  induction out as [|[k' v'] out IH]; simpl; [apply list_elem_of_here|].
  destruct (String.eqb_spec k' k) as [->|Hne].
  - apply list_elem_of_here.
  - by apply list_elem_of_further.
Qed.

Lemma elem_of_ODict_set_other out k v user digest :
  (user, digest) ∈ out → user ≠ k → (user, digest) ∈ ODict.set out k v.
Proof.
  intros Hin Hne. induction out as [|[k' v'] out IH]; simpl;
    [by apply elem_of_nil in Hin|].
  apply elem_of_cons in Hin as [[= <- <-]|Hin].
  - rewrite (proj2 (String.eqb_neq _ _)) by done. apply list_elem_of_here.
  - destruct (String.eqb k' k); apply list_elem_of_further; auto.
Qed.

(** A line without the separator is not split. *)
Lemma split1_no_sep (sep : ascii) (s : string) :
  Py.contains (String sep "") s = false → Py.split1 sep s = [s].
Proof.
  induction s as [|c s IH]; cbn [Py.contains Py.split1]; [done|].
  rewrite orb_false_iff. intros [Hp Hs].
  destruct (Ascii.eqb_spec c sep) as [->|Hne].
  - exfalso. assert (Hpre : String.prefix (String sep "") (String sep s) = true).
    { apply prefix_spec. by exists s. }
    congruence.
  - by rewrite (IH Hs).
Qed.

(** The loader, on a line that stands for an entry and on one that does
    not. *)
Lemma load_line_entry out line :
  (∃ u rest, Py.split1 ":" (Py.strip line) = [u; rest]
             ∧ load_line out line
               = ODict.set out (Py.strip u) (Py.lower (Py.strip rest)))
  ∨ ((∀ user digest, ¬ entry_of_line line user digest)
     ∧ load_line out line = out).
Proof.
  unfold load_line, entry_of_line.
  destruct (String.eqb_spec (Py.strip line) "") as [He|Hne]; simpl.
  { right. split; [|done]. intros user digest (u & rest & Hs & _).
    rewrite He in Hs. discriminate. }
  destruct (Py.contains ":" (Py.strip line)) eqn:Hc; simpl.
  - left. destruct (split1_contains ":" _ Hc) as (u & rest & Hs).
    exists u, rest. by rewrite Hs.
  - right. split; [|done]. intros user digest (u & rest & Hs & _).
    rewrite (split1_no_sep ":" _ Hc) in Hs. discriminate.
Qed.

Lemma NoDup_load_lines (lines : list string) out :
  NoDup out.*1 → NoDup (foldl load_line out lines).*1.
Proof.
  revert out. induction lines as [|line lines IH]; intros out Hnd; [done|].
  simpl. apply IH.
  destruct (load_line_entry out line) as [(u & rest & _ & ->)|[_ ->]];
    [by apply NoDup_ODict_set|done].
Qed.

Lemma load_lines_keeps (lines : list string) out user digest :
  (user, digest) ∈ out →
  (∀ l d, l ∈ lines → ¬ entry_of_line l user d) →
  (user, digest) ∈ foldl load_line out lines.
Proof.
  revert out. induction lines as [|line lines IH]; intros out Hin Hno; [done|].
  simpl. apply IH.
  - destruct (load_line_entry out line) as [(u & rest & Hs & ->)|[_ ->]];
      [|done].
    apply elem_of_ODict_set_other; [done|]. intros ->.
    apply (Hno line (Py.lower (Py.strip rest))); [apply list_elem_of_here|].
    by exists u, rest.
  - intros l d Hl. apply Hno. by apply list_elem_of_further.
Qed.

(** X15. The loaded table has one entry for each identifier, and the last
    line that names an identifier decides its digest. *)
Theorem hash_table_last_wins (path text : string) w :
  files w !! path = Some text →
  ∃ table,
    (load_local_sha256_hashes path w).1 = Ok table
    ∧ NoDup table.*1
    ∧ ∀ before line after user digest,
        Py.readlines text = before ++ line :: after →
        entry_of_line line user digest →
        (∀ l d, l ∈ after → ¬ entry_of_line l user d) →
        (user, digest) ∈ table.
Proof.
  intros Hf. eexists. rewrite (load_local_sha256_hashes_run path text w Hf).
  split; [reflexivity|]. split.
  - apply NoDup_load_lines. constructor.
  - intros before line after user digest -> (u & rest & Hs & -> & ->) Hlast.
    rewrite foldl_app. simpl. apply load_lines_keeps; [|done].
    destruct (load_line_entry (foldl load_line [] before) line)
      as [(u' & rest' & Hs' & ->)|[Hno _]].
    + rewrite Hs in Hs'. injection Hs' as <- <-. apply elem_of_ODict_set_new.
    + destruct (Hno (Py.strip u) (Py.lower (Py.strip rest))). by exists u, rest.
Qed.

Lemma hash_table_last_wins_witness :
  let NL := String Py.LF "" in
  let text := "a:01" +:+ NL +:+ "b:02" +:+ NL +:+ "a: 0F " in
  let w := World {[ "h" := text ]} [] in
  files w !! "h" = Some text
  ∧ ∃ table, (load_local_sha256_hashes "h" w).1 = Ok table
             ∧ NoDup table.*1 ∧ ("a", "0f") ∈ table.
Proof.
  intros NL text w.
  assert (Hf : files w !! "h" = Some text) by reflexivity.
  split; [exact Hf|].
  destruct (hash_table_last_wins "h" text w Hf) as (table & Hrun & Hnd & Hlast).
  exists table. split; [exact Hrun|]. split; [exact Hnd|].
  apply (Hlast ["a:01" +:+ NL; "b:02" +:+ NL] "a: 0F " []).
  - reflexivity.
  - exists "a", " 0F". repeat split; reflexivity.
  - intros l d Hl. by apply elem_of_nil in Hl.
Defined.

Lemma open_read_missing (path : string) w :
  files w !! path = None →
  open_read path w
  = (Raise (FileNotFoundError path), World (files w) (trace w ++ [EvOpen path])).
Proof. intros Hf. unfold open_read. by rewrite Hf. Qed.

(** X16. A missing file raises [FileNotFoundError] for that file: the
    loader and the matcher stop at the hash file when it is missing, and
    the matcher stops at the candidates file, the hash file already read,
    when only that one is missing. *)
Theorem lab_simulate_match_missing_file
    (hashes_path candidates_path : string) (max_checks : Z) w :
  (files w !! hashes_path = None →
     load_local_sha256_hashes hashes_path w
     = (Raise (FileNotFoundError hashes_path),
        World (files w) (trace w ++ [EvOpen hashes_path]))
     ∧ lab_simulate_match hashes_path candidates_path max_checks w
       = (Raise (FileNotFoundError hashes_path),
          World (files w) (trace w ++ [EvOpen hashes_path])))
  ∧ (is_Some (files w !! hashes_path) → files w !! candidates_path = None →
     lab_simulate_match hashes_path candidates_path max_checks w
     = (Raise (FileNotFoundError candidates_path),
        World (files w)
          ((trace w ++ [EvOpen hashes_path]) ++ [EvOpen candidates_path]))).
Proof.
  split.
  - intros Hh.
    unfold lab_simulate_match, load_local_sha256_hashes, mbind, IO_bind.
    by rewrite (open_read_missing hashes_path w Hh).
  - intros [htext Hh] Hc. unfold lab_simulate_match, mbind, IO_bind.
    rewrite (load_local_sha256_hashes_run hashes_path htext w Hh).
    by rewrite open_read_missing.
Qed.

Lemma lab_simulate_match_missing_file_witness :
  let w := World {[ "h" := "alice:00" ]} [] in
  is_Some (files w !! "h") ∧ files w !! "c" = None ∧ files w !! "x" = None
  ∧ (lab_simulate_match "h" "c" 10 w).1 = Raise (FileNotFoundError "c")
  ∧ (lab_simulate_match "x" "c" 10 w).1 = Raise (FileNotFoundError "x").
Proof.
  intros w.
  assert (Hh : is_Some (files w !! "h")) by (by eexists).
  assert (Hc : files w !! "c" = None) by reflexivity.
  assert (Hx : files w !! "x" = None) by reflexivity.
  split; [exact Hh|]. split; [exact Hc|]. split; [exact Hx|]. split.
  - by rewrite (proj2 (lab_simulate_match_missing_file "h" "c" 10 w) Hh Hc).
  - by rewrite (proj2 (proj1 (lab_simulate_match_missing_file "x" "c" 10 w) Hx)).
Defined.

(** X17. Raising [max_checks] only adds hits at the end: the hits for a
    smaller bound are a prefix of the hits for a larger one, and a bound
    of zero or less gives none. *)
Theorem lab_simulate_match_prefix
    (hashes_path candidates_path htext ctext : string) (m m' : Z) w :
  files w !! hashes_path = Some htext →
  files w !! candidates_path = Some ctext →
  (m ≤ m')%Z →
  ∃ hits hits',
    (lab_simulate_match hashes_path candidates_path m w).1 = Ok hits
    ∧ (lab_simulate_match hashes_path candidates_path m' w).1 = Ok hits'
    ∧ hits `prefix_of` hits'
    ∧ ((m ≤ 0)%Z → hits = []).
Proof.
  intros Hh Hc Hm. eexists _, _.
  rewrite !(lab_simulate_match_run _ _ htext ctext _ w Hh Hc).
  split; [reflexivity|]. split; [reflexivity|]. split.
  - unfold matching_pairs.
    assert (Htake : take (Z.to_nat m) (Py.readlines ctext)
                    `prefix_of` take (Z.to_nat m') (Py.readlines ctext)).
    { exists (take (Z.to_nat m' - Z.to_nat m) (drop (Z.to_nat m) (Py.readlines ctext))).
      rewrite <- (take_drop (Z.to_nat m) (Py.readlines ctext)) at 1.
      rewrite take_app, length_take.
      destruct (decide (Z.to_nat m ≤ length (Py.readlines ctext))%nat).
      - rewrite Nat.min_l by done. rewrite take_take.
        by replace (Z.to_nat m' `min` Z.to_nat m)%nat with (Z.to_nat m) by lia.
      - rewrite !(take_ge (Py.readlines ctext)) by lia.
        rewrite drop_ge by lia. by rewrite !take_nil. }
    destruct Htake as [k ->]. rewrite fmap_app, bind_app. by eexists.
  - intros Hle. by replace (Z.to_nat m) with 0%nat by lia.
Qed.

Lemma lab_simulate_match_prefix_witness :
  let NL := String Py.LF "" in
  let w := World {[ "h" := "alice:" +:+ sha256_hex "hunter2";
                    "c" := "admin" +:+ NL +:+ "hunter2" ]} [] in
  files w !! "h" = Some ("alice:" +:+ sha256_hex "hunter2")
  ∧ files w !! "c" = Some ("admin" +:+ NL +:+ "hunter2")
  ∧ (1 ≤ 2)%Z
  ∧ ∃ hits hits',
      (lab_simulate_match "h" "c" 1 w).1 = Ok hits
      ∧ (lab_simulate_match "h" "c" 2 w).1 = Ok hits'
      ∧ hits `prefix_of` hits'.
Proof.
  intros NL w.
  assert (Hh : files w !! "h" = Some ("alice:" +:+ sha256_hex "hunter2"))
    by reflexivity.
  assert (Hc : files w !! "c" = Some ("admin" +:+ NL +:+ "hunter2"))
    by reflexivity.
  assert (Hm : (1 ≤ 2)%Z) by lia.
  split; [exact Hh|]. split; [exact Hc|]. split; [exact Hm|].
  destruct (lab_simulate_match_prefix "h" "c" _ _ 1 2 w Hh Hc Hm)
    as (hits & hits' & H1 & H2 & Hpre & _).
  exists hits, hits'. split; [exact H1|]. split; [exact H2|exact Hpre].
Defined.

(** X18. Every digest in a hit has the shape of a SHA-256 hex digest, so a
    table entry whose digest is not 64 lowercase hexadecimal digits never
    appears in a hit. *)
Theorem hits_are_well_formed
    (hashes_path candidates_path htext ctext : string) (max_checks : Z) w :
  files w !! hashes_path = Some htext →
  files w !! candidates_path = Some ctext →
  ∃ hits,
    (lab_simulate_match hashes_path candidates_path max_checks w).1 = Ok hits
    ∧ (∀ user cand digest, (user, cand, digest) ∈ hits →
         lowercase_hex64 digest ∧ digest = sha256_hex cand)
    ∧ (∀ user cand digest, ¬ lowercase_hex64 digest →
         (user, cand, digest) ∉ hits).
Proof.
  intros Hh Hc. eexists.
  rewrite (lab_simulate_match_run _ _ htext ctext max_checks w Hh Hc).
  split; [reflexivity|].
  assert (Hshape : ∀ user cand digest,
    (user, cand, digest) ∈ matching_pairs (foldl load_line [] (Py.readlines htext))
      (Py.strip <$> take (Z.to_nat max_checks) (Py.readlines ctext)) →
    lowercase_hex64 digest ∧ digest = sha256_hex cand).
  { intros user cand digest (_ & _ & <-)%elem_of_matching_pairs.
    split; [apply sha256_hex_shape|done]. }
  split; [exact Hshape|].
  intros user cand digest Hbad Hin. by apply Hshape in Hin as [? _].
Qed.

Lemma hits_are_well_formed_witness :
  let w := World {[ "h" := "alice:" +:+ sha256_hex "hunter2";
                    "c" := "hunter2" ]} [] in
  files w !! "h" = Some ("alice:" +:+ sha256_hex "hunter2")
  ∧ files w !! "c" = Some "hunter2"
  ∧ ∃ hits, (lab_simulate_match "h" "c" 5 w).1 = Ok hits
            ∧ ∀ user cand digest, (user, cand, digest) ∈ hits →
                lowercase_hex64 digest.
Proof.
  intros w.
  assert (Hh : files w !! "h" = Some ("alice:" +:+ sha256_hex "hunter2"))
    by reflexivity.
  assert (Hc : files w !! "c" = Some "hunter2") by reflexivity.
  split; [exact Hh|]. split; [exact Hc|].
  destruct (hits_are_well_formed "h" "c" _ _ 5 w Hh Hc) as (hits & Hrun & Hall & _).
  exists hits. split; [exact Hrun|].
  intros user cand digest Hin. exact (proj1 (Hall user cand digest Hin)).
Defined.

End TableMore.

(** ** More on the [lab-sim] command *)

Section LabSimMore.

Variable colored : string → string → string.

Lemma print_hits_run (hits : list (string * string * string)) w :
  print_hits hits w
  = (Ok tt, World (files w) (trace w ++ (EvPrint ∘ hit_line <$> hits))).
Proof.
  revert w. induction hits as [|[[user cand] h] hits IH]; intros w.
  - destruct w. simpl. by rewrite app_nil_r.
  - cbn [print_hits]. unfold mbind, IO_bind, print, emit.
    rewrite IH. cbn [files trace]. by rewrite <- app_assoc.
Qed.

Lemma path_exists_run (path : string) w :
  path_exists path w
  = (Ok (bool_decide (is_Some (files w !! path))),
     World (files w) (trace w ++ [EvExists path])).
Proof. done. Qed.

(** X19. With both flags set and both files present, [cmd_lab_sim]
    returns normally, leaves the files as they were, and does exactly
    this, in this order: probes the two paths, logs the start, opens the
    hash file and the candidates file, prints the report of the hits among
    the first 100000 candidates, and logs their number. *)
Theorem cmd_lab_sim_full_run (args : lab_args) (htext ctext : string) w :
  lab args = true → confirm args = true →
  files w !! hashes args = Some htext →
  files w !! candidates args = Some ctext →
  let hits :=
    matching_pairs (foldl load_line [] (Py.readlines htext))
      (Py.strip <$> take (Z.to_nat 100000) (Py.readlines ctext)) in
  cmd_lab_sim colored args w
  = (Ok tt,
     World (files w)
       (trace w
        ++ [EvExists (hashes args); EvExists (candidates args);
            EvAudit ("Lab sim started: hashes=" +:+ hashes args +:+
                     " candidates=" +:+ candidates args);
            EvOpen (hashes args); EvOpen (candidates args)]
        ++ report_events colored hits
        ++ [EvAudit ("Lab sim finished, hits=" +:+ pretty (length hits))])).
Proof.
  intros Hlab Hconfirm Hh Hc hits. unfold cmd_lab_sim.
  rewrite Hlab, Hconfirm. cbn [negb orb].
  unfold mbind at 1. unfold IO_bind at 1. rewrite path_exists_run.
  rewrite (bool_decide_eq_true_2 _ (mk_is_Some _ _ Hh)). cbn [negb].
  unfold mbind at 1. unfold IO_bind at 1.
  unfold mbind at 1. unfold IO_bind at 1. rewrite path_exists_run.
  cbn [files trace].
  rewrite (bool_decide_eq_true_2 _ (mk_is_Some _ _ Hc)).
  unfold mret at 1. unfold IO_ret at 1. cbn [negb].
  unfold mbind at 1. unfold IO_bind at 1.
  unfold audit_log at 1. unfold emit at 1. cbn [files trace].
  unfold mbind at 1. unfold IO_bind at 1.
  rewrite (lab_simulate_match_run _ _ htext ctext) by done.
  cbn [files trace]. fold hits.
  unfold mbind at 1. unfold IO_bind at 1.
  destruct hits as [|hit hits'] eqn:Ehits.
  - rewrite bool_decide_eq_true_2 by done.
    unfold print, audit_log, emit. cbn [files trace report_events length].
    by rewrite <- !app_assoc.
  - rewrite bool_decide_eq_false_2 by done.
    unfold mbind at 1. unfold IO_bind at 1.
    unfold print at 1. unfold emit at 1. cbn [files trace].
    rewrite print_hits_run.
    unfold audit_log, emit. cbn [files trace report_events].
    by rewrite <- !app_assoc.
Qed.

(** X20. With both flags set, a missing file is reported once and nothing
    is opened or logged: when the hash file is missing the candidates path
    is not even probed; when only the candidates file is missing both
    paths are probed. *)
Theorem cmd_lab_sim_missing_file (args : lab_args) w :
  lab args = true → confirm args = true →
  (files w !! hashes args = None →
     cmd_lab_sim colored args w
     = (Ok tt,
        World (files w)
          (trace w ++ [EvExists (hashes args);
                       EvPrint (colored "Hashes or candidates file missing" "red")])))
  ∧ (is_Some (files w !! hashes args) → files w !! candidates args = None →
     cmd_lab_sim colored args w
     = (Ok tt,
        World (files w)
          (trace w ++ [EvExists (hashes args); EvExists (candidates args);
                       EvPrint (colored "Hashes or candidates file missing" "red")]))).
Proof.
  intros Hlab Hconfirm. unfold cmd_lab_sim.
  rewrite Hlab, Hconfirm. cbn [negb orb]. split.
  - intros Hh.
    unfold mbind at 1. unfold IO_bind at 1. rewrite path_exists_run.
    rewrite bool_decide_eq_false_2
      by (rewrite Hh; by intros [? ?]).
    cbn [negb]. unfold mbind, IO_bind, mret, IO_ret, print, emit.
    cbn [files trace]. by rewrite <- app_assoc.
  - intros Hh Hc.
    unfold mbind at 1. unfold IO_bind at 1. rewrite path_exists_run.
    rewrite (bool_decide_eq_true_2 _ Hh). cbn [negb].
    unfold mbind at 1. unfold IO_bind at 1.
    unfold mbind at 1. unfold IO_bind at 1. rewrite path_exists_run.
    cbn [files trace].
    rewrite bool_decide_eq_false_2
      by (rewrite Hc; by intros [? ?]).
    unfold mret, IO_ret, print, emit. cbn [negb files trace].
    by rewrite <- !app_assoc.
Qed.


End LabSimMore.

Lemma cmd_lab_sim_full_run_witness :
  let args := LabArgs "h" "c" true true in
  let w := World {[ "h" := "alice:" +:+ sha256_hex "hunter2";
                    "c" := "hunter2" ]} [] in
  (cmd_lab_sim colored_fallback args w).1 = Ok tt
  ∧ trace (cmd_lab_sim colored_fallback args w).2
    = [EvExists "h"; EvExists "c";
       EvAudit "Lab sim started: hashes=h candidates=c";
       EvOpen "h"; EvOpen "c"; EvPrint "HITS:";
       EvPrint ("alice:hunter2:" +:+ sha256_hex "hunter2");
       EvAudit "Lab sim finished, hits=1"].
Proof.
  intros args w.
  rewrite (cmd_lab_sim_full_run colored_fallback args ("alice:" +:+ sha256_hex "hunter2")
             "hunter2" w eq_refl eq_refl eq_refl eq_refl).
  split; [reflexivity|]. vm_compute. reflexivity.
Defined.

Lemma cmd_lab_sim_missing_file_witness :
  let args := LabArgs "h" "c" true true in
  let w := World {[ "c" := "hunter2" ]} [] in
  trace (cmd_lab_sim colored_fallback args w).2
  = [EvExists "h"; EvPrint "Hashes or candidates file missing"].
Proof.
  intros args w.
  by rewrite (proj1 (cmd_lab_sim_missing_file colored_fallback args w eq_refl eq_refl) eq_refl).
Defined.

(** ** Writing a list and reading it back *)

Section WriteList.

Lemma append_assoc_str s t u : (s +:+ t) +:+ u = s +:+ (t +:+ u).
Proof. induction s as [|c s IH]; [done|]. by rewrite !app_String, IH. Qed.

Lemma written_text (words : list string) (acc : string) :
  foldl (λ text word, text +:+ (word +:+ String Py.LF "")) acc words
  = acc +:+ foldr (λ word rest, word +:+ String Py.LF rest) "" words.
Proof.
  revert acc. induction words as [|word words IH]; intros acc; simpl.
  - induction acc as [|c acc IHa]; [done|]. by rewrite app_String, <- IHa.
  - rewrite IH, !append_assoc_str. by rewrite app_String, app_empty.
Qed.

Lemma readlines_line (word rest : string) :
  one_line word →
  Py.readlines (word +:+ String Py.LF rest)
  = (word +:+ String Py.LF "") :: Py.readlines rest.
Proof.
  unfold one_line. induction word as [|c word IH]; intros Hword.
  - done.
  - cbn [String.list_ascii_of_string] in Hword.
    apply Forall_cons in Hword as [[Hlf Hcr] Hword].
    rewrite !app_String. cbn [Py.readlines].
    rewrite (proj2 (Ascii.eqb_neq _ _) Hlf), (proj2 (Ascii.eqb_neq _ _) Hcr).
    by rewrite IH.
Qed.

Lemma readlines_written (words : list string) :
  Forall one_line words →
  Py.readlines (foldr (λ word rest, word +:+ String Py.LF rest) "" words)
  = (λ word, word +:+ String Py.LF "") <$> words.
Proof.
  induction 1 as [|word words Hword _ IH]; [done|].
  cbn [foldr]. rewrite readlines_line by done. by rewrite IH.
Qed.

Lemma rstrip_line (s : string) : Py.rstrip (s +:+ String Py.LF "") = Py.rstrip s.
Proof.
  induction s as [|c s IH]; [done|].
  rewrite app_String. cbn [Py.rstrip]. by rewrite IH.
Qed.

Lemma strip_line (s : string) : Py.strip (s +:+ String Py.LF "") = Py.strip s.
Proof.
  unfold Py.strip. induction s as [|c s IH]; [done|].
  rewrite app_String. cbn [Py.lstrip]. destruct (Py.is_space c); [done|].
  by rewrite <- app_String, rstrip_line.
Qed.

Lemma write_list_run (words : list string) (path : string) w :
  write_list words path w
  = (Ok tt,
     World (<[path := foldr (λ word rest, word +:+ String Py.LF rest) "" words]>
              (files w)) (trace w)).
Proof. unfold write_list. by rewrite written_text, app_empty. Qed.

(** X22. Writing a list and reading the file back gives the list again:
    [write_list] replaces the file at [path] and touches no other file,
    and when no word holds a line break the file has one line for each
    word, in order, each the word followed by a line feed, so the stripped
    lines are the stripped words. *)
Theorem write_list_read_back (words : list string) (path : string) w :
  Forall one_line words →
  (write_list words path w).1 = Ok tt
  ∧ (∀ other, other ≠ path →
       files (write_list words path w).2 !! other = files w !! other)
  ∧ ∃ text,
      files (write_list words path w).2 !! path = Some text
      ∧ Py.readlines text = (λ word, word +:+ String Py.LF "") <$> words
      ∧ Py.strip <$> Py.readlines text = Py.strip <$> words.
Proof.
  intros Hwords. rewrite write_list_run. cbn [fst snd files].
  split; [done|]. split.
  - intros other Hne. by rewrite lookup_insert_ne.
  - eexists. split; [by rewrite lookup_insert_eq|].
    rewrite readlines_written by done. split; [done|].
    rewrite <- list_fmap_compose. apply list_fmap_ext.
    intros _ word _. apply strip_line.
Qed.

Lemma write_list_read_back_witness :
  let w := World {[ "h" := "alice:00" ]} [] in
  let w' := (write_list ["admin"; ""; "a b"] "out" w).2 in
  Forall one_line ["admin"; ""; "a b"]
  ∧ files w' !! "h" = Some "alice:00"
  ∧ ∃ text, files w' !! "out" = Some text
            ∧ Py.strip <$> Py.readlines text = ["admin"; ""; "a b"].
Proof.
  intros w w'.
  assert (Hwords : Forall one_line ["admin"; ""; "a b"]).
  { repeat constructor; intros E; discriminate E. }
  split; [exact Hwords|].
  destruct (write_list_read_back ["admin"; ""; "a b"] "out" w Hwords)
    as (_ & Hother & text & Htext & _ & Hback).
  split; [by rewrite Hother|].
  exists text. split; [exact Htext|]. exact Hback.
Defined.

(** X23. The written list feeds the matcher: after [write_list words c],
    a run of [lab_simulate_match] on a hash file at another path and on
    [c] compares the first [max_checks] words, stripped, with the table. *)
Theorem write_list_then_match
    (words : list string) (h c htext : string) (max_checks : Z) w :
  h ≠ c →
  files w !! h = Some htext →
  Forall one_line words →
  (lab_simulate_match h c max_checks (write_list words c w).2).1
  = Ok (matching_pairs (foldl load_line [] (Py.readlines htext))
          (Py.strip <$> take (Z.to_nat max_checks) words)).
Proof.
  intros Hne Hh Hwords. rewrite write_list_run. cbn [snd].
  erewrite lab_simulate_match_run; cbn [files].
  2:{ by rewrite lookup_insert_ne. }
  2:{ by rewrite lookup_insert_eq. }
  cbn [fst]. rewrite readlines_written by done.
  rewrite <- fmap_take, <- list_fmap_compose. do 2 f_equal.
  apply list_fmap_ext. intros _ word _. apply strip_line.
Qed.

Lemma write_list_then_match_witness :
  let w := World {[ "h" := "alice:" +:+ sha256_hex "hunter2" ]} [] in
  "h" ≠ "c"
  ∧ Forall one_line ["admin"; "hunter2"]
  ∧ (lab_simulate_match "h" "c" 5 (write_list ["admin"; "hunter2"] "c" w).2).1
    = Ok [("alice", "hunter2", sha256_hex "hunter2")].
Proof.
  intros w.
  assert (Hne : "h" ≠ "c") by discriminate.
  assert (Hwords : Forall one_line ["admin"; "hunter2"]).
  { repeat constructor; intros E; discriminate E. }
  split; [exact Hne|]. split; [exact Hwords|].
  rewrite (write_list_then_match ["admin"; "hunter2"] "h" "c" _ 5 w
             Hne eq_refl Hwords).
  vm_compute. reflexivity.
Defined.

End WriteList.

(** ** The [gen] command *)

Section GenMore.

Variable colored : string → string → string.
Variable re_search : string → string → bool.

Lemma str_lt_le s t : str_lt s t → (s ≤ t)%string.
Proof.
  unfold String.le, str_lt, String.leb, String.ltb.
  by destruct (String.compare s t).
Qed.

Lemma str_lt_irrefl s : ¬ str_lt s s.
Proof.
  unfold str_lt, String.ltb.
  pose proof (String.compare_antisym s s) as H.
  by destruct (String.compare s s).
Qed.

Lemma StronglySorted_lt_le (l : list string) :
  StronglySorted str_lt l → StronglySorted (≤)%string l ∧ NoDup l.
Proof.
  induction 1 as [|x l Hs [IHs IHn] Hall]; [split; constructor|].
  rewrite Forall_forall in Hall. split.
  - constructor; [done|]. apply Forall_forall. intros y Hy.
    by apply str_lt_le, Hall.
  - constructor; [|done]. intros Hx. by apply (str_lt_irrefl x), Hall.
Qed.

(** Sorting the set of a strictly sorted list gives the list back. *)
Lemma sorted_of_sorted (l : list string) :
  StronglySorted str_lt l → Py.sorted (list_to_set l) = l.
Proof.
  intros [Hle Hnd]%StronglySorted_lt_le.
  apply (StronglySorted_unique (≤)%string); [apply sorted_le|done|].
  unfold Py.sorted. rewrite merge_sort_Permutation.
  by apply elements_list_to_set.
Qed.

Lemma copy_loop {A} (l acc : list A) :
  foldl (λ final w, final ++ [w]) acc l = acc ++ l.
Proof.
  revert acc. induction l as [|x l IH]; intros acc; simpl.
  - by rewrite app_nil_r.
  - by rewrite IH, <- app_assoc.
Qed.

Lemma print_all_run (lines : list string) w :
  print_all lines w
  = (Ok tt, World (files w) (trace w ++ (EvPrint <$> lines))).
Proof.
  revert w. induction lines as [|p lines IH]; intros w.
  - destruct w. simpl. by rewrite app_nil_r.
  - cbn [print_all]. unfold mbind, IO_bind, print, emit.
    rewrite IH. cbn [files trace]. by rewrite <- app_assoc.
Qed.

Lemma gen_final_filter (keyword : string) (leet_level max_len : Z) :
  gen_final re_search keyword leet_level max_len
  = filter_by_charset re_search
      (add_common_patterns
         (generate_common_passwords keyword
          ++ generate_leetspeak_variations keyword leet_level 2000)
         COMMON_PATTERNS)
      1 max_len None.
Proof.
  unfold gen_final. cbv zeta. rewrite copy_loop, app_nil_l.
  apply sorted_of_sorted. rewrite filter_by_charset_filter.
  eapply sublist_StronglySorted; [apply sublist_filter|apply sorted_lt].
Qed.

(** X24. The list that [cmd_gen] prints and writes is the filtered list
    itself, since the copy loop and the second sort change nothing: it is
    strictly sorted, holds exactly the patterned candidates of length 1 to
    [max_len], contains the keyword followed by 123 whenever that fits,
    and is empty when [max_len] is below 1. *)
Theorem gen_final_exact (keyword : string) (leet_level max_len : Z) :
  let patterned :=
    add_common_patterns
      (generate_common_passwords keyword
       ++ generate_leetspeak_variations keyword leet_level 2000)
      COMMON_PATTERNS in
  let final := gen_final re_search keyword leet_level max_len in
  final = filter_by_charset re_search patterned 1 max_len None
  ∧ StronglySorted str_lt final
  ∧ (∀ s, s ∈ final ↔
          s ∈ patterned ∧ (1 ≤ Z.of_nat (String.length s) ≤ max_len)%Z)
  ∧ ((Z.of_nat (String.length keyword) + 3 ≤ max_len)%Z →
     keyword +:+ "123" ∈ final)
  ∧ ((max_len < 1)%Z → final = []).
Proof.
  intros patterned final.
  assert (Hfinal : final = filter_by_charset re_search patterned 1 max_len None)
    by apply gen_final_filter.
  assert (Hmem : ∀ s, s ∈ final ↔
    s ∈ patterned ∧ (1 ≤ Z.of_nat (String.length s) ≤ max_len)%Z).
  { intros s. rewrite Hfinal, filter_by_charset_filter, list_elem_of_filter.
    unfold kept, rejected_by. split.
    - by intros [[Hb _] Hs].
    - by intros [Hs Hb]. }
  split; [exact Hfinal|]. split; [|split; [exact Hmem|split]].
  - rewrite Hfinal, filter_by_charset_filter.
    eapply sublist_StronglySorted; [apply sublist_filter|apply sorted_lt].
  - intros Hfits. apply Hmem. split.
    + apply elem_of_add_common_patterns. left. apply elem_of_app. left.
      apply elem_of_generate_common_passwords.
      exists keyword, "123". split; [apply list_elem_of_here|].
      split; [apply list_elem_of_here|by left].
    + rewrite length_append. simpl. lia.
  - intros Hlow. rewrite Hfinal, filter_by_charset_filter.
    clear Hfinal Hmem. induction patterned as [|s l IH]; [done|].
    rewrite filter_cons, IH. rewrite decide_False; [done|].
    intros [? _]. lia.
Qed.

(** X25. With the write taken to succeed, [cmd_gen] returns normally, and
    a run does exactly this: it logs the call, prints the preview when [preview] is not zero (a negative value
    previews all but the last candidates), writes the whole list and
    announces it when an output file is named, and logs the number of
    candidates.  Without an output file no file changes. *)
Theorem cmd_gen_run (args : gen_args) w :
  let final := gen_final re_search (keyword args) (leet args) (max_len args) in
  let called :=
    EvAudit ("gen called: keyword=" +:+ keyword args +:+ " leet="
             +:+ pretty (leet args) +:+ " max_len=" +:+ pretty (max_len args)
             +:+ " preview=" +:+ pretty (preview args)
             +:+ " out=" +:+ outfile args) in
  let finished :=
    EvAudit ("Generated " +:+ pretty (length final) +:+ " candidates") in
  cmd_gen colored re_search args w
  = if String.eqb (outfile args) "" then
      (Ok tt,
       World (files w)
         (trace w ++ [called]
          ++ preview_events colored final (preview args) ++ [finished]))
    else
      (Ok tt,
       World (files (write_list final (outfile args) w).2)
         (trace w ++ [called]
          ++ preview_events colored final (preview args)
          ++ [EvPrint (colored ("Wrote " +:+ pretty (length final)
                                +:+ " candidates to " +:+ outfile args)
                         "yellow");
              finished])).
Proof.
  intros final called finished. unfold cmd_gen. cbv zeta. fold final.
  unfold mbind at 1. unfold IO_bind at 1.
  unfold audit_log at 1. unfold emit at 1. fold called.
  unfold mbind at 1. unfold IO_bind at 1.
  assert (Hpreview :
    (if negb (preview args =? 0)%Z
     then print (colored ("Top " +:+ pretty (preview args) +:+ " candidates:") "cyan");;
          print_all (Py.slice_to final (preview args))
     else mret tt)
      (World (files w) (trace w ++ [called]))
    = (Ok tt, World (files w)
         ((trace w ++ [called]) ++ preview_events colored final (preview args)))).
  { unfold preview_events. destruct (preview args =? 0)%Z; cbn [negb].
    - unfold mret, IO_ret. by rewrite app_nil_r.
    - unfold mbind, IO_bind, print, emit. rewrite print_all_run.
      cbn [files trace]. by rewrite <- app_assoc. }
  rewrite Hpreview. clear Hpreview.
  unfold mbind at 1. unfold IO_bind at 1.
  destruct (String.eqb (outfile args) ""); cbn [negb].
  - unfold mret, IO_ret, audit_log, emit. cbn [files trace]. fold finished.
    by rewrite <- !app_assoc.
  - unfold mbind, IO_bind, write_list, print, audit_log, emit.
    cbn [files trace snd]. fold finished. by rewrite <- !app_assoc.
Qed.

End GenMore.

Lemma gen_final_exact_witness :
  (Z.of_nat (String.length "Ab") + 3 ≤ 5)%Z
  ∧ "Ab123" ∈ gen_final (λ _ _, true) "Ab" 1 5.
Proof.
  assert (Hfits : (Z.of_nat (String.length "Ab") + 3 ≤ 5)%Z) by (simpl; lia).
  split; [exact Hfits|].
  exact (proj1 (proj2 (proj2 (proj2 (gen_final_exact (λ _ _, true) "Ab" 1 5))))
           Hfits).
Defined.

(** ** The [analyze] command *)

Section AnalyzeMore.

Variable colored : string → string → string.
Variable log2 : Z → float.
Variable format_1f : float → string.

Lemma analyze_line_run (line : string) w :
  ∃ row, is_row log2 format_1f line row
         ∧ analyze_line log2 format_1f line w
           = (Ok tt, World (files w) (trace w ++ [EvPrint row])).
Proof.
  unfold analyze_line, is_row. cbv zeta.
  rewrite policy_check_default_eq. cbv zeta.
  eexists. split; [|reflexivity].
  eexists _, _. split; [reflexivity|]. split; [|reflexivity].
  rewrite bool_decide_eq_true. apply length_zero_iff_nil.
Qed.

Lemma analyze_lines_run (lines : list string) w :
  ∃ rows, Forall2 (is_row log2 format_1f) lines rows
          ∧ analyze_lines log2 format_1f lines w
            = (Ok tt, World (files w) (trace w ++ (EvPrint <$> rows))).
Proof.
  revert w. induction lines as [|line lines IH]; intros w.
  - exists []. split; [constructor|]. destruct w. simpl. by rewrite app_nil_r.
  - destruct (analyze_line_run line w) as (row & Hrow & Hrun).
    destruct (IH (World (files w) (trace w ++ [EvPrint row])))
      as (rows & Hrows & Hruns).
    exists (row :: rows). split; [by constructor|].
    cbn [analyze_lines]. unfold mbind, IO_bind. rewrite Hrun, Hruns.
    cbn [files trace]. by rewrite <- app_assoc.
Qed.

(** X26. [cmd_analyze] never raises.  When the file is missing it probes
    the path and prints one message, and opens nothing; when the file is
    there it prints the header, opens the file, and prints one row for
    each line, in order, the verdict of a row being [True] exactly when
    the row lists no failure. *)
Theorem cmd_analyze_run (path : string) w :
  (files w !! path = None →
     cmd_analyze colored log2 format_1f path w
     = (Ok tt,
        World (files w)
          (trace w ++ [EvExists path;
                       EvPrint (colored "Candidates file not found" "red")])))
  ∧ (∀ text, files w !! path = Some text →
     ∃ rows,
       Forall2 (is_row log2 format_1f) (Py.readlines text) rows
       ∧ cmd_analyze colored log2 format_1f path w
         = (Ok tt,
            World (files w)
              (trace w
               ++ [EvExists path;
                   EvPrint (colored "password,entropy_bits,policy_ok,failures" "cyan");
                   EvOpen path]
               ++ (EvPrint <$> rows)))).
Proof.
  unfold cmd_analyze. split.
  - intros Hf. unfold mbind at 1. unfold IO_bind at 1. rewrite path_exists_run.
    rewrite bool_decide_eq_false_2 by (rewrite Hf; by intros [? ?]).
    unfold print, emit. cbn [negb files trace]. by rewrite <- app_assoc.
  - intros text Hf.
    unfold mbind at 1. unfold IO_bind at 1. rewrite path_exists_run.
    rewrite (bool_decide_eq_true_2 _ (mk_is_Some _ _ Hf)). cbn [negb].
    unfold mbind at 1. unfold IO_bind at 1.
    unfold print at 1. unfold emit at 1. cbn [files trace].
    unfold mbind at 1. unfold IO_bind at 1.
    rewrite (open_read_found path text) by done. cbn [files trace].
    destruct (analyze_lines_run (Py.readlines text)
      (World (files w)
         (((trace w ++ [EvExists path])
           ++ [EvPrint (colored "password,entropy_bits,policy_ok,failures" "cyan")])
          ++ [EvOpen path]))) as (rows & Hrows & Hrun).
    exists rows. split; [exact Hrows|]. rewrite Hrun. cbn [files trace].
    by rewrite <- !app_assoc.
Qed.

End AnalyzeMore.

Lemma cmd_analyze_run_witness :
  let w := World {[ "h" := "alice:00" ]} [] in
  files w !! "c" = None
  ∧ cmd_analyze colored_fallback (λ _, 0%float) (λ _, "0.0") "c" w
    = (Ok tt, World (files w) [EvExists "c"; EvPrint "Candidates file not found"]).
Proof.
  intros w.
  assert (Hf : files w !! "c" = None) by reflexivity.
  split; [exact Hf|].
  exact (proj1 (cmd_analyze_run colored_fallback (λ _, 0%float) (λ _, "0.0")
                  "c" w) Hf).
Defined.
